(** * room2.5: the raycasting renderer and its tile map

    A shallow embedding of [src/core/engine/Map.ts], of the
    [TextureManager] and of the [Renderer] (ray march, wall projection,
    texture column choice and fog), followed by the properties the
    specification states about them.

    Conventions of the embedding.
    - A JavaScript [number] that holds a coordinate, an angle or a distance
      is a real number ([R]); rounding of IEEE doubles is not modelled.
      [Math.sin], [Math.cos], [Math.PI], [Math.abs], [Math.max], [Math.min]
      are [sin], [cos], [PI], [Rabs], [Rmax], [Rmin].
    - A [number] that is the result of [Math.floor] or [Math.round], an
      array index, a tile type code or a colour channel read from an
      [ImageData] is an integer ([Z]); [Math.floor] is [Zfloor].
    - [undefined] and [null] are [None].
    - A plain object used as a dictionary, and an ES [Map], are [gmap]s.
    - A [while] loop is a [Fixpoint] on a fuel argument; the fuel handed to
      it is shown to be enough (more fuel never changes the result). *)

From Stdlib Require Import Reals Lra Lia ZArith List Bool.
From stdpp Require Import gmap strings.

(** ** JavaScript helpers *)

Module Js.

(** [a[i]] for an integer [i]: [undefined] below zero and past the end. *)
Definition index {A : Type} (a : list A) (i : Z) : option A :=
  if (i <? 0)%Z then None else a !! Z.to_nat i.

(** Truthiness of an optional string: [undefined] and the empty string are
    falsy. *)
Definition truthy_string (s : option string) : bool :=
  match s with
  | None => false
  | Some s => negb (String.eqb s "")
  end.

(** [x < y] on numbers, as a boolean. *)
Definition ltb (x y : R) : bool := if Rlt_dec x y then true else false.

(** [x > y] on numbers, as a boolean. *)
Definition gtb (x y : R) : bool := if Rgt_dec x y then true else false.

(** [Math.floor], keeping the result a number. *)
Definition floor (x : R) : R := IZR (Zfloor x).

(** [Math.round]: the nearest integer, halves towards plus infinity. *)
Definition round (x : R) : Z := Zfloor (x + 1 / 2).

(** The integers [lo, lo+1, ..., hi-1] of [for (let y = lo; y < hi; y++)]. *)
Definition range (lo hi : Z) : list Z :=
  List.map (fun k => (lo + Z.of_nat k)%Z) (seq 0 (Z.to_nat (hi - lo))).

End Js.

(** ** Tiles and tile definitions ([Map.ts], interfaces) *)

Module Tile.
Record t : Type := mk {
  type : Z;
  name : string;
  texture : option string;
  height : option R;
  isSolid : bool
}.
End Tile.

Module TileDefinition.
Record t : Type := mk {
  type : Z;
  name : string;
  texture : string;
  isSolid : bool;
  height : option R
}.

(** A [TileDefinition] used where a [Tile] is expected (structural typing:
    [createTile] returns the definition object itself). *)
Definition as_tile (d : t) : Tile.t :=
  Tile.mk (type d) (name d) (Some (texture d)) (height d) (isSolid d).
End TileDefinition.

(** ** Texture manager *)

(** A colour as the strings of the program denote it. [Hex_ffffff] is the
    literal ["#ffffff"]; [Rgb r g b] is a template string
    [rgb(${r}, ${g}, ${b})], whose components print as [undefined] when the
    read fell outside the pixel array ([None]).  The blank after each comma,
    present in [getTextureColor] and absent in [getWallColor], is not
    kept. *)
Inductive CssColor : Type :=
| Hex_ffffff
| Rgb (r g b : option Z).

Module ImageData.
(** [width], [height] and the RGBA bytes, row-major, four per pixel. *)
Record t : Type := mk {
  width : Z;
  height : Z;
  data : list Z
}.

(** What the canvas guarantees of a decoded image: at least one pixel,
    four bytes per pixel. *)
Definition wf (img : t) : Prop :=
  (1 <= width img)%Z /\ (1 <= height img)%Z /\
  Z.of_nat (length (data img)) = (4 * width img * height img)%Z /\
  Forall (fun v => 0 <= v <= 255)%Z (data img).

(** Channel [c] (0 red, 1 green, 2 blue) of the pixel at column [x], row [y]. *)
Definition channel (img : t) (x y c : Z) : option Z :=
  Js.index (data img) ((y * width img + x) * 4 + c)%Z.
End ImageData.

Module TextureManager.
(** Only [textureData] takes part in colour sampling. *)
Record t : Type := mk {
  textureData : gmap string ImageData.t
}.

Definition getTextureColor (tm : t) (name : string) (x y : Z) : CssColor :=
  match textureData tm !! name with
  | None => Hex_ffffff
  | Some textureData =>
      let x := Z.max 0 (Z.min x (ImageData.width textureData - 1)) in
      let y := Z.max 0 (Z.min y (ImageData.height textureData - 1)) in
      let index := ((y * ImageData.width textureData + x) * 4)%Z in
      let r := Js.index (ImageData.data textureData) index in
      let g := Js.index (ImageData.data textureData) (index + 1)%Z in
      let b := Js.index (ImageData.data textureData) (index + 2)%Z in
      Rgb r g b
  end.

Definition getTextureColorByName (tm : t) (name : string) (x y : Z) : CssColor :=
  getTextureColor tm name x y.
End TextureManager.

(** ** The map *)

Module Map.
Record t : Type := mk {
  tiles : list (list Tile.t);
  floorTexture : string;
  ceilingTexture : string;
  tileDefinitions : gmap Z TileDefinition.t;
  textureManager : TextureManager.t
}.

(** [this.tileDefinitions[type] = definition] (the image load that
    [registerTileDefinition] also starts completes later, outside the
    constructor). *)
Definition registerTileDefinition (type : Z) (definition : TileDefinition.t)
    (defs : gmap Z TileDefinition.t) : gmap Z TileDefinition.t :=
  <[type := definition]> defs.

(** The tile returned for a type code with no definition. *)
Definition emptyTile : Tile.t :=
  Tile.mk 0 "empty" (Some "empty") None false.

Definition createTile (defs : gmap Z TileDefinition.t) (type : Z) : Tile.t :=
  match defs !! type with
  | None => emptyTile
  | Some definition => TileDefinition.as_tile definition
  end.

Definition initializeTiles (defs : gmap Z TileDefinition.t)
    (mapData : list (list Z)) : list (list Tile.t) :=
  List.map (fun row => List.map (fun tileType => createTile defs tileType) row)
    mapData.

(** The constructor, given the definitions that the subclass registers in
    [initializeTileDefinitions] and the textures decoded so far. *)
Definition new (defs : gmap Z TileDefinition.t) (tm : TextureManager.t)
    (mapData : list (list Z)) (floorTexture ceilingTexture : string) : t :=
  mk (initializeTiles defs mapData) floorTexture ceilingTexture defs tm.

(** [this.tiles[y]?.[x]] *)
Definition getTile (m : t) (x y : Z) : option Tile.t :=
  match Js.index (tiles m) y with
  | None => None
  | Some row => Js.index row x
  end.

(** [tile?.isSolid ?? true] *)
Definition isSolid (m : t) (x y : Z) : bool :=
  match getTile m x y with
  | None => true
  | Some tile => Tile.isSolid tile
  end.

Definition getFloorTexture (m : t) : string := floorTexture m.
Definition getCeilingTexture (m : t) : string := ceilingTexture m.

Definition getTextureColor (m : t) (textureName : string) (x y : Z) : CssColor :=
  TextureManager.getTextureColor (textureManager m) textureName x y.

(** A grid of [h] rows of [w] cells each. *)
Definition rectangular (m : t) (w h : nat) : Prop :=
  length (tiles m) = h /\ Forall (fun row => length row = w) (tiles m).
End Map.

(** ** Player pose and canvas *)

Module Player.
(** The fields the renderer reads. *)
Record t : Type := mk {
  x : R;
  y : R;
  angle : R
}.
End Player.

Module Canvas.
Record t : Type := mk {
  width : Z;
  height : Z
}.
End Canvas.

(** What [castRay] returns: [{ distance, hitX, hitY, tile: hitTile }]. *)
Module RayHit.
Record t : Type := mk {
  distance : R;
  hitX : R;
  hitY : R;
  tile : option Tile.t
}.
End RayHit.

(** A [fillStyle] assignment followed by [fillRect(x, y, w, h)]. *)
Inductive FillStyle : Type :=
| Style_name (s : string)
| Style_color (c : CssColor).

Record FillRect : Type := mkFillRect {
  fillStyle : FillStyle;
  rect_x : R;
  rect_y : R;
  rect_w : R;
  rect_h : R
}.

(** ** The renderer *)

Module Renderer.
Local Open Scope R_scope.

Record FogColor : Type := mkFog { r : R; g : R; b : R }.

Record Options : Type := mkOptions {
  tileSize : option R;
  fov : option R;
  numRays : option Z;
  projectionPlaneDistance : option R;
  defaultFogColor : option FogColor;
  maxRayDistance : option R
}.

Definition no_options : Options := mkOptions None None None None None None.

Record t : Type := mk {
  canvas : Canvas.t;
  TILE_SIZE : R;
  FOV : R;
  NUM_RAYS : Z;
  PROJECTION_PLANE_DISTANCE : R;
  DEFAULT_FOG_COLOR : FogColor;
  MAX_RAY_DISTANCE : R
}.

(** The constructor: each option, when given, replaces the field's
    initial value ([options.x ?? this.X]). *)
Definition new (canvas : Canvas.t) (options : Options) : t :=
  mk canvas
     (default 64 (tileSize options))
     (default (PI / 3) (fov options))
     (default (Canvas.width canvas) (numRays options))
     (default (64 * 4) (projectionPlaneDistance options))
     (default (mkFog 7 7 7) (defaultFogColor options))
     (default 1000 (maxRayDistance options)).

(** *** castRay *)

(** The variables of the loop. *)
Record March : Type := mkMarch {
  distance : R;
  hit : bool;
  hitX : R;
  hitY : R;
  hitTile : option Tile.t
}.

Definition march_init : March := mkMarch 0 false 0 0 None.

(** [tile?.isSolid] as a condition. *)
Definition solid (tile : option Tile.t) : bool :=
  match tile with
  | None => false
  | Some tile => Tile.isSolid tile
  end.

(** One turn of the loop body. *)
Definition march_body (rd : t) (sin cos : R) (player : Player.t) (map : Map.t)
    (st : March) : March :=
  let distance := distance st + 1 in
  let hitX := (Player.x player + cos * distance) / TILE_SIZE rd in
  let hitY := (Player.y player + sin * distance) / TILE_SIZE rd in
  let testX := Zfloor hitX in
  let testY := Zfloor hitY in
  let tile := Map.getTile map testX testY in
  if solid tile
  then mkMarch distance true hitX hitY tile
  else mkMarch distance (hit st) hitX hitY (hitTile st).

(** [while (!hit && distance < this.MAX_RAY_DISTANCE) { ... }] *)
Fixpoint march_loop (fuel : nat) (rd : t) (sin cos : R) (player : Player.t)
    (map : Map.t) (st : March) : March :=
  match fuel with
  | O => st
  | S fuel =>
      if negb (hit st) && Js.ltb (distance st) (MAX_RAY_DISTANCE rd)
      then march_loop fuel rd sin cos player map
             (march_body rd sin cos player map st)
      else st
  end.

(** The loop starts at distance 0 and adds 1 each turn, so it cannot turn
    more often than the least integer that reaches [MAX_RAY_DISTANCE]. *)
Definition march_fuel (rd : t) : nat := Z.to_nat (Zceil (MAX_RAY_DISTANCE rd)).

Definition castRay (rd : t) (rayAngle : R) (player : Player.t) (map : Map.t)
    : RayHit.t :=
  let sin := sin rayAngle in
  let cos := cos rayAngle in
  let st := march_loop (march_fuel rd) rd sin cos player map march_init in
  RayHit.mk (distance st) (hitX st) (hitY st) (hitTile st).

(** *** getWallColor *)

(** [baseColor.match(/rgb\((\d+),\s*(\d+),\s*(\d+)\)/)]: the three groups,
    when all three components print as digit strings. *)
Definition rgb_match (baseColor : CssColor) : option (Z * Z * Z) :=
  match baseColor with
  | Rgb (Some r) (Some g) (Some b) =>
      if ((0 <=? r)%Z && (0 <=? g)%Z && (0 <=? b)%Z)%bool
      then Some (r, g, b) else None
  | _ => None
  end.

Definition fogStart : R := 300.
Definition fogEnd : R := 700.

(** [fogFactor] after the clamp. *)
Definition fogFactor (distance : R) : R :=
  let fogFactor := (distance - fogStart) / (fogEnd - fogStart) in
  Rmax 0 (Rmin 1 fogFactor).

(** One channel: [Math.round(c * (1 - fogFactor) + fog * fogFactor)]. *)
Definition blend (c : Z) (fog : R) (fogFactor : R) : Z :=
  Js.round (IZR c * (1 - fogFactor) + fog * fogFactor).

Definition getWallColor (rd : t) (tile : option Tile.t) (textureX textureY : Z)
    (map : Map.t) (distance : R) : CssColor :=
  match tile with
  | None => Hex_ffffff
  | Some tile =>
      if negb (Js.truthy_string (Tile.texture tile)) then Hex_ffffff
      else
        let baseColor :=
          Map.getTextureColor map (Tile.name tile) textureX textureY in
        let fogColor := DEFAULT_FOG_COLOR rd in
        let '(r0, g0, b0) :=
          match rgb_match baseColor with
          | Some m => m
          | None => (255, 255, 255)%Z
          end in
        let fogFactor := fogFactor distance in
        let r := blend r0 (r fogColor) fogFactor in
        let g := blend g0 (g fogColor) fogFactor in
        let b := blend b0 (b fogColor) fogFactor in
        Rgb (Some r) (Some g) (Some b)
  end.

(** *** render *)

(** The constants of one turn of the column loop. *)
Definition rayAngle (rd : t) (player : Player.t) (i : Z) : R :=
  Player.angle player - FOV rd / 2 + (IZR i / IZR (NUM_RAYS rd)) * FOV rd.

Definition wallHeight (rd : t) (distance : R) : R :=
  (TILE_SIZE rd * PROJECTION_PLANE_DISTANCE rd) / (distance + 0.0001).

Definition wallX (hitX hitY : R) : R :=
  if Js.gtb (Rabs (hitX - Js.floor (hitX + 0.5)))
            (Rabs (hitY - Js.floor (hitY + 0.5)))
  then hitX - Js.floor hitX
  else hitY - Js.floor hitY.

Definition textureX (rd : t) (hitX hitY : R) : Z :=
  Zfloor (wallX hitX hitY * TILE_SIZE rd).

Definition drawStart (rd : t) (wallHeight : R) : Z :=
  Zfloor ((IZR (Canvas.height (canvas rd)) - wallHeight) / 2).

Definition drawEnd (rd : t) (wallHeight : R) : Z :=
  Zfloor ((IZR (Canvas.height (canvas rd)) + wallHeight) / 2).

Definition textureY (rd : t) (wallHeight : R) (y : Z) : Z :=
  let d := IZR y - IZR (Canvas.height (canvas rd)) / 2 + wallHeight / 2 in
  Zfloor (d * TILE_SIZE rd / wallHeight).

(** The pixels that the body of the column loop draws for column [i]. *)
Definition render_column (rd : t) (player : Player.t) (map : Map.t) (i : Z)
    : list FillRect :=
  let rayAngle := rayAngle rd player i in
  let ray := castRay rd rayAngle player map in
  let wallHeight := wallHeight rd (RayHit.distance ray) in
  match RayHit.tile ray with
  | None => []
  | Some tile =>
      let textureX := textureX rd (RayHit.hitX ray) (RayHit.hitY ray) in
      List.map
        (fun y =>
           let textureY := textureY rd wallHeight y in
           mkFillRect
             (Style_color
                (getWallColor rd (Some tile) textureX textureY map
                   (RayHit.distance ray)))
             (IZR i) (IZR y) 1 1)
        (Js.range (drawStart rd wallHeight) (drawEnd rd wallHeight))
  end.

(** The rays of one frame, one per column, in column order. *)
Definition rays (rd : t) (player : Player.t) (map : Map.t) : list RayHit.t :=
  List.map (fun i => castRay rd (rayAngle rd player i) player map)
    (Js.range 0 (NUM_RAYS rd)).

(** All [fillRect] calls of one frame, in order. *)
Definition render (rd : t) (player : Player.t) (map : Map.t) : list FillRect :=
  let w := IZR (Canvas.width (canvas rd)) in
  let h := IZR (Canvas.height (canvas rd)) in
  mkFillRect (Style_name (Map.getCeilingTexture map)) 0 0 w (h / 2)
  :: mkFillRect (Style_name (Map.getFloorTexture map)) 0 (h / 2) w (h / 2)
  :: flat_map (render_column rd player map) (Js.range 0 (NUM_RAYS rd)).

End Renderer.

(** ** Vocabulary of the statements *)

(** The point that turn [n] of the march tests, in grid coordinates
    (lines 594 and 595 with [distance = n]). *)
Definition sample_x (rd : Renderer.t) (player : Player.t) (cos : R) (n : nat) : R :=
  ((Player.x player + cos * INR n) / Renderer.TILE_SIZE rd)%R.

Definition sample_y (rd : Renderer.t) (player : Player.t) (sin : R) (n : nat) : R :=
  ((Player.y player + sin * INR n) / Renderer.TILE_SIZE rd)%R.

(** The cell of that point, and the tile found there. *)
Definition sample_cell (rd : Renderer.t) (player : Player.t) (sin cos : R)
    (n : nat) : Z * Z :=
  (Zfloor (sample_x rd player cos n), Zfloor (sample_y rd player sin n)).

Definition sample_tile (rd : Renderer.t) (player : Player.t) (map : Map.t)
    (sin cos : R) (n : nat) : option Tile.t :=
  Map.getTile map (Zfloor (sample_x rd player cos n))
                  (Zfloor (sample_y rd player sin n)).

(** The first turn among [k+1 .. k+fuel] whose sample is a solid tile. *)
Fixpoint first_solid (rd : Renderer.t) (player : Player.t) (map : Map.t)
    (sin cos : R) (fuel k : nat) : option nat :=
  match fuel with
  | O => None
  | S fuel =>
      if Renderer.solid (sample_tile rd player map sin cos (S k))
      then Some (S k)
      else first_solid rd player map sin cos fuel (S k)
  end.

(** A cell inside [[0,w) x [0,h)]. *)
Definition in_bounds (w h : nat) (x y : Z) : Prop :=
  (0 <= x < Z.of_nat w)%Z /\ (0 <= y < Z.of_nat h)%Z.

(** Clamping of a texture coordinate into [[0, size)]. *)
Definition clamp_coord (v size : Z) : Z := Z.max 0 (Z.min v (size - 1)).


(** Distance from a number to the integer that [Math.round] picks. *)
Definition round_gap (v : R) : R := Rabs (v - IZR (Js.round v)).

(** The fractional part [v - Math.floor(v)]. *)
Definition frac (v : R) : R := (v - Js.floor v)%R.

(** *** Rings of wall *)

(** Not on the border of a [w] by [h] grid. *)
Definition inner_cell (w h : nat) (x y : Z) : bool :=
  ((1 <=? x) && (x <=? Z.of_nat w - 2) && (1 <=? y) && (y <=? Z.of_nat h - 2))%Z.

(** A closed ring of solid tiles, one tile thick, around open floor. *)
Definition is_ring (m : Map.t) (w h : nat) : Prop :=
  (3 <= w)%nat /\ (3 <= h)%nat /\
  forall x y : Z, in_bounds w h x y ->
    exists tile, Map.getTile m x y = Some tile /\
                 Tile.isSolid tile = negb (inner_cell w h x y).

(** Half the diagonal of the ring, in world units. *)
Definition ring_radius (rd : Renderer.t) (w h : nat) : R :=
  (Renderer.TILE_SIZE rd * sqrt ((INR w / 2)² + (INR h / 2)²))%R.

(** Half the diagonal of the open floor inside the ring, in world units:
    the distance from the centre to the farthest point of the floor. *)
Definition ring_reach (rd : Renderer.t) (w h : nat) : R :=
  (Renderer.TILE_SIZE rd * sqrt ((INR w / 2 - 1)² + (INR h / 2 - 1)²))%R.

(** The viewer at the centre of a [w] by [h] grid. *)
Definition centre (rd : Renderer.t) (w h : nat) (angle : R) : Player.t :=
  Player.mk (INR w * Renderer.TILE_SIZE rd / 2) (INR h * Renderer.TILE_SIZE rd / 2)
            angle.

(** *** Example maps and renderers *)

(** The wall of the class comment of [Map.ts]. *)
Definition wall : TileDefinition.t :=
  TileDefinition.mk 1 "wall" "brick" true None.

Definition wall_defs : gmap Z TileDefinition.t :=
  Map.registerTileDefinition 1 wall ∅.

Definition no_textures : TextureManager.t := TextureManager.mk ∅.

Definition ring_data (w h : nat) : list (list Z) :=
  List.map
    (fun y => List.map
       (fun x => if inner_cell w h (Z.of_nat x) (Z.of_nat y) then 0%Z else 1%Z)
       (seq 0 w))
    (seq 0 h).

Definition ring_map (w h : nat) : Map.t :=
  Map.new wall_defs no_textures (ring_data w h) "grey" "darkgrey".

(** The four by four map of the class comment of [Map.ts]. *)
Definition enclosed4 : Map.t :=
  Map.new wall_defs no_textures
    [[1; 1; 1; 1]; [1; 0; 0; 1]; [1; 0; 0; 1]; [1; 1; 1; 1]]%Z
    "grey" "darkgrey".

(** A map with no row at all, and a map of one open cell. *)
Definition empty_map : Map.t := Map.new ∅ no_textures [] "grey" "darkgrey".

Definition open_cell : Map.t := Map.new ∅ no_textures [[0%Z]] "grey" "darkgrey".

(** The canvas of the demo ([index.ts]) and the renderer built on it with
    no option. *)
Definition demo_canvas : Canvas.t := Canvas.mk 192 108.

Definition demo_renderer : Renderer.t := Renderer.new demo_canvas Renderer.no_options.

(** The same with ten rays. *)
Definition ten_rays : Renderer.t :=
  Renderer.new demo_canvas
    (Renderer.mkOptions None None (Some 10%Z) None None None).

(** A two by two texture: red, green / blue, white. *)
Definition tex2 : ImageData.t :=
  ImageData.mk 2 2
    [255; 0; 0; 255;   0; 255; 0; 255;
     0; 0; 255; 255;   255; 255; 255; 255]%Z.

Definition brick_textures : TextureManager.t :=
  TextureManager.mk {[ "wall" := tex2 ]}.

(** ** The player entity ([src/core/entities/Player.ts]) *)

(** The class [Player] that the demo and the renderer import.  Its event
    listeners are functions from player to player; whether the pointer is
    locked on the document body is an argument of the mouse listener. *)
Module PlayerEntity.
Local Open Scope R_scope.

Module Options.
Record t : Type := mk {
  mouseSensitivity : option R;
  sprintSpeed : option R;
  baseSpeed : option R;
  jumpSpeed : option R;
  gravity : option R
}.
End Options.

Record t : Type := mk {
  x : R;
  y : R;
  angle : R;
  speed : R;
  baseSpeed : R;
  sprintSpeed : R;
  mouseSensitivity : R;
  jumpSpeed : R;
  gravity : R;
  map : option Map.t
}.

Definition TILE_SIZE : R := 64.
Definition COLLISION_MARGIN : R := 3.

(** The constructor: [speed] is read from [baseSpeed] before the options
    replace the initial values of the fields. *)
Definition new (x y : R) (options : Options.t) : t :=
  mk x y 0 6.5
     (default 6.5 (Options.baseSpeed options))
     (default 5 (Options.sprintSpeed options))
     (default 0.002 (Options.mouseSensitivity options))
     (default 10 (Options.jumpSpeed options))
     (default 0.1 (Options.gravity options))
     None.

Definition setMap (m : Map.t) (p : t) : t :=
  mk (x p) (y p) (angle p) (speed p) (baseSpeed p) (sprintSpeed p)
     (mouseSensitivity p) (jumpSpeed p) (gravity p) (Some m).

Definition set_position (p : t) (newX newY : R) : t :=
  mk newX newY (angle p) (speed p) (baseSpeed p) (sprintSpeed p)
     (mouseSensitivity p) (jumpSpeed p) (gravity p) (map p).

Definition set_angle (p : t) (angle : R) : t :=
  mk (x p) (y p) angle (speed p) (baseSpeed p) (sprintSpeed p)
     (mouseSensitivity p) (jumpSpeed p) (gravity p) (map p).

Definition set_speed (p : t) (speed : R) : t :=
  mk (x p) (y p) (angle p) speed (baseSpeed p) (sprintSpeed p)
     (mouseSensitivity p) (jumpSpeed p) (gravity p) (map p).

(** What the renderer reads of the player. *)
Definition pose (p : t) : Player.t := Player.mk (x p) (y p) (angle p).

(** The four corners tested around a target position. *)
Definition corners (newX newY : R) : list (R * R) :=
  [ (newX - COLLISION_MARGIN, newY - COLLISION_MARGIN);
    (newX + COLLISION_MARGIN, newY - COLLISION_MARGIN);
    (newX - COLLISION_MARGIN, newY + COLLISION_MARGIN);
    (newX + COLLISION_MARGIN, newY + COLLISION_MARGIN) ].

Definition canMoveTo (p : t) (newX newY : R) : bool :=
  match map p with
  | None => false
  | Some m =>
      negb (existsb
              (fun corner =>
                 let tileX := Zfloor (fst corner / TILE_SIZE) in
                 let tileY := Zfloor (snd corner / TILE_SIZE) in
                 Map.isSolid m tileX tileY)
              (corners newX newY))
  end.

Definition moveForward (p : t) : t :=
  let newX := x p + cos (angle p) * speed p in
  let newY := y p + sin (angle p) * speed p in
  if canMoveTo p newX newY then set_position p newX newY else p.

Definition moveBackward (p : t) : t :=
  let newX := x p - cos (angle p) * speed p in
  let newY := y p - sin (angle p) * speed p in
  if canMoveTo p newX newY then set_position p newX newY else p.

Definition is_shift (code : string) : bool :=
  String.eqb code "ShiftLeft" || String.eqb code "ShiftRight".

(** The [keydown] listener: the [switch] on [e.code]. *)
Definition keydown (code : string) (p : t) : t :=
  if String.eqb code "KeyA" || String.eqb code "ArrowLeft"
  then set_angle p (angle p - 0.1)
  else if String.eqb code "KeyD" || String.eqb code "ArrowRight"
  then set_angle p (angle p + 0.1)
  else if String.eqb code "KeyW" || String.eqb code "ArrowUp"
  then moveForward p
  else if String.eqb code "KeyS" || String.eqb code "ArrowDown"
  then moveBackward p
  else if is_shift code
  then set_speed p (sprintSpeed p)
  else p.

(** The [keyup] listener. *)
Definition keyup (code : string) (p : t) : t :=
  if is_shift code then set_speed p (baseSpeed p) else p.

(** The [mousemove] listener; [locked] is
    [document.pointerLockElement === document.body]. *)
Definition mousemove (movementX : R) (locked : bool) (p : t) : t :=
  if locked then set_angle p (angle p + movementX * mouseSensitivity p) else p.

Inductive Event : Type :=
| Keydown (code : string)
| Keyup (code : string)
| Mousemove (movementX : R) (locked : bool).

Definition handle (p : t) (e : Event) : t :=
  match e with
  | Keydown code => keydown code p
  | Keyup code => keyup code p
  | Mousemove movementX locked => mousemove movementX locked p
  end.

(** The listeners run on a sequence of events, in order. *)
Definition run (events : list Event) (p : t) : t := fold_left handle events p.

End PlayerEntity.

(** ** The player with polled keys ([src/unnamed/part_000], first class) *)

(** The other [Player] class: the listeners record the pressed keys and a
    timer applies them every 16 ms. *)
Module PlayerPolled.
Local Open Scope R_scope.

Module Options.
Record t : Type := mk {
  mouseSensitivity : option R;
  sprintSpeed : option R;
  baseSpeed : option R;
  jumpSpeed : option R;
  gravity : option R;
  collisionMargin : option R
}.
End Options.

Record t : Type := mk {
  x : R;
  y : R;
  angle : R;
  speed : R;
  baseSpeed : R;
  sprintSpeed : R;
  mouseSensitivity : R;
  jumpSpeed : R;
  gravity : R;
  COLLISION_MARGIN : R;
  map : option Map.t;
  pressedKeys : gset string
}.

Definition TILE_SIZE : R := 64.

Definition new (x y : R) (options : Options.t) : t :=
  mk x y 0 10
     (default 10 (Options.baseSpeed options))
     (default 30 (Options.sprintSpeed options))
     (default 0.002 (Options.mouseSensitivity options))
     (default 10 (Options.jumpSpeed options))
     (default 0.1 (Options.gravity options))
     (default 3 (Options.collisionMargin options))
     None ∅.

Definition setMap (m : Map.t) (p : t) : t :=
  mk (x p) (y p) (angle p) (speed p) (baseSpeed p) (sprintSpeed p)
     (mouseSensitivity p) (jumpSpeed p) (gravity p) (COLLISION_MARGIN p)
     (Some m) (pressedKeys p).

Definition set_position (p : t) (newX newY : R) : t :=
  mk newX newY (angle p) (speed p) (baseSpeed p) (sprintSpeed p)
     (mouseSensitivity p) (jumpSpeed p) (gravity p) (COLLISION_MARGIN p)
     (map p) (pressedKeys p).

Definition set_angle (p : t) (angle : R) : t :=
  mk (x p) (y p) angle (speed p) (baseSpeed p) (sprintSpeed p)
     (mouseSensitivity p) (jumpSpeed p) (gravity p) (COLLISION_MARGIN p)
     (map p) (pressedKeys p).

Definition set_speed (p : t) (speed : R) : t :=
  mk (x p) (y p) (angle p) speed (baseSpeed p) (sprintSpeed p)
     (mouseSensitivity p) (jumpSpeed p) (gravity p) (COLLISION_MARGIN p)
     (map p) (pressedKeys p).

Definition set_keys (p : t) (keys : gset string) : t :=
  mk (x p) (y p) (angle p) (speed p) (baseSpeed p) (sprintSpeed p)
     (mouseSensitivity p) (jumpSpeed p) (gravity p) (COLLISION_MARGIN p)
     (map p) keys.

(** [checkCollision]: the cell of a point, asked of [isSolid]. *)
Definition checkCollision (m : Map.t) (point : R * R) : bool :=
  let tileX := Zfloor (fst point / TILE_SIZE) in
  let tileY := Zfloor (snd point / TILE_SIZE) in
  Map.isSolid m tileX tileY.

Definition frontPoints (p : t) (newX newY : R) : list (R * R) :=
  [ (newX + cos (angle p) * COLLISION_MARGIN p,
     newY + sin (angle p) * COLLISION_MARGIN p);
    (newX + cos (angle p + PI / 4) * COLLISION_MARGIN p,
     newY + sin (angle p + PI / 4) * COLLISION_MARGIN p);
    (newX + cos (angle p - PI / 4) * COLLISION_MARGIN p,
     newY + sin (angle p - PI / 4) * COLLISION_MARGIN p) ].

Definition leftPoint (p : t) (newX newY : R) : R * R :=
  (newX + cos (angle p + PI / 2) * COLLISION_MARGIN p,
   newY + sin (angle p + PI / 2) * COLLISION_MARGIN p).

Definition rightPoint (p : t) (newX newY : R) : R * R :=
  (newX + cos (angle p - PI / 2) * COLLISION_MARGIN p,
   newY + sin (angle p - PI / 2) * COLLISION_MARGIN p).

Definition canMoveTo (p : t) (newX newY : R) : bool :=
  match map p with
  | None => false
  | Some m =>
      if existsb (checkCollision m) (frontPoints p newX newY) then false
      else
        let leftCollision := checkCollision m (leftPoint p newX newY) in
        let rightCollision := checkCollision m (rightPoint p newX newY) in
        if leftCollision && rightCollision then false else true
  end.

Definition moveForward (p : t) : t :=
  let newX := x p + cos (angle p) * speed p in
  let newY := y p + sin (angle p) * speed p in
  if canMoveTo p newX newY then set_position p newX newY else p.

Definition moveBackward (p : t) : t :=
  let newX := x p - cos (angle p) * speed p in
  let newY := y p - sin (angle p) * speed p in
  if canMoveTo p newX newY then set_position p newX newY else p.

Definition is_shift (code : string) : bool :=
  String.eqb code "ShiftLeft" || String.eqb code "ShiftRight".

(** [this.pressedKeys.has(a) || this.pressedKeys.has(b)] *)
Definition pressed (p : t) (a b : string) : bool :=
  bool_decide (a ∈ pressedKeys p) || bool_decide (b ∈ pressedKeys p).

Definition keydown (code : string) (p : t) : t :=
  set_keys p ({[ code ]} ∪ pressedKeys p).

Definition keyup (code : string) (p : t) : t :=
  let p := set_keys p (pressedKeys p ∖ {[ code ]}) in
  if is_shift code then set_speed p (baseSpeed p) else p.

(** One run of the timer callback: five tests in a row. *)
Definition tick (p : t) : t :=
  let p := if pressed p "KeyW" "ArrowUp" then moveForward p else p in
  let p := if pressed p "KeyS" "ArrowDown" then moveBackward p else p in
  let p := if pressed p "KeyA" "ArrowLeft" then set_angle p (angle p - 0.1) else p in
  let p := if pressed p "KeyD" "ArrowRight" then set_angle p (angle p + 0.1) else p in
  if pressed p "ShiftLeft" "ShiftRight" then set_speed p (sprintSpeed p) else p.

Definition mousemove (movementX : R) (locked : bool) (p : t) : t :=
  if locked then set_angle p (angle p + movementX * mouseSensitivity p) else p.

(** [n] runs of the timer callback. *)
Fixpoint ticks (n : nat) (p : t) : t :=
  match n with
  | O => p
  | S n => ticks n (tick p)
  end.

End PlayerPolled.

(** ** The minimap ([src/unnamed/part_000], class [MiniMap]) *)

(** What the minimap puts on the canvas: a filled rectangle, a filled arc
    ([fillStyle], [beginPath], [arc], [fill]) or a stroked segment
    ([strokeStyle], [beginPath], [moveTo], [lineTo], [stroke]). *)
Inductive CanvasCall : Type :=
| Fill_rect (rect : FillRect)
| Fill_arc (style : string) (cx cy radius startAngle endAngle : R)
| Stroke_line (style : string) (x0 y0 x1 y1 : R).

Module MiniMap.
Local Open Scope R_scope.

Module Options.
Record t : Type := mk {
  tileSize : option R;
  margin : option R;
  wallColor : option string;
  floorColor : option string;
  playerColor : option string;
  directionColor : option string;
  directionLength : option R
}.
Definition none : t := mk None None None None None None None.
End Options.

Record t : Type := mk {
  tileSize : R;
  margin : R;
  wallColor : string;
  floorColor : string;
  playerColor : string;
  directionColor : string;
  directionLength : R
}.

Definition new (options : Options.t) : t :=
  mk (default 1 (Options.tileSize options))
     (default 1 (Options.margin options))
     (default "green" (Options.wallColor options))
     (default "black" (Options.floorColor options))
     (default "red" (Options.playerColor options))
     (default "yellow" (Options.directionColor options))
     (default 20 (Options.directionLength options)).

(** The body of the inner loop, for the cell at column [x], row [y]. *)
Definition tile_rect (mm : t) (map : Map.t) (x y : nat) : FillRect :=
  let tile := Map.getTile map (Z.of_nat x) (Z.of_nat y) in
  mkFillRect
    (Style_name (if Renderer.solid tile then wallColor mm else floorColor mm))
    (margin mm + INR x * tileSize mm)
    (margin mm + INR y * tileSize mm)
    (tileSize mm) (tileSize mm).

(** The two loops over [tiles.length] and [tiles[y].length]. *)
Definition tile_rects (mm : t) (map : Map.t) : list FillRect :=
  flat_map
    (fun y =>
       List.map (fun x => tile_rect mm map x y)
         (seq 0 (length (nth y (Map.tiles map) []))))
    (seq 0 (length (Map.tiles map))).

Definition player_dot (mm : t) (player : Player.t) : CanvasCall :=
  Fill_arc (playerColor mm)
    (margin mm + (Player.x player / 64) * tileSize mm)
    (margin mm + (Player.y player / 64) * tileSize mm)
    (tileSize mm / 2) 0 (2 * PI).

Definition direction_line (mm : t) (player : Player.t) : CanvasCall :=
  Stroke_line (directionColor mm)
    (margin mm + (Player.x player / 64) * tileSize mm)
    (margin mm + (Player.y player / 64) * tileSize mm)
    (margin mm
     + ((Player.x player + cos (Player.angle player) * directionLength mm) / 64)
       * tileSize mm)
    (margin mm
     + ((Player.y player + sin (Player.angle player) * directionLength mm) / 64)
       * tileSize mm).

Definition render (mm : t) (map : Map.t) (player : Player.t) : list CanvasCall :=
  List.map Fill_rect (tile_rects mm map)
  ++ [player_dot mm player; direction_line mm player].

End MiniMap.

(** ** Texture loading ([TextureManager.createTexture]) *)

(** The three maps of the texture manager, and what the [onload] callback
    of [createTexture] does to them once the image is decoded.  An image is
    taken with its pixels; [ctx] tells whether the scratch canvas gave a 2D
    context. *)
Module TextureCache.
Record t : Type := mk {
  textures : gmap Z ImageData.t;
  textureNames : gmap string Z;
  textureData : gmap string ImageData.t
}.

Definition empty : t := mk ∅ ∅ ∅.

Definition onload (id : Z) (name : string) (img : ImageData.t) (ctx : bool)
    (tc : t) : t :=
  mk (<[id := img]> (textures tc))
     (<[name := id]> (textureNames tc))
     (if ctx then <[name := img]> (textureData tc) else textureData tc).

Definition getTextureId (tc : t) (name : string) : option Z :=
  textureNames tc !! name.

(** The part of the cache that [getTextureColor] reads. *)
Definition manager (tc : t) : TextureManager.t :=
  TextureManager.mk (textureData tc).

Definition getTextureColor (tc : t) (name : string) (x y : Z) : CssColor :=
  TextureManager.getTextureColor (manager tc) name x y.
End TextureCache.

(** ** The frame loop of the demo ([src/demos/startdown/index.ts]) *)

Module GameLoop.
Local Open Scope R_scope.

Definition FPS : R := 30.

(** [lastFrame], and the times at which the two [render] calls ran, the
    latest first. *)
Record t : Type := mk {
  lastFrame : R;
  rendered : list R
}.

Definition init : t := mk 0 [].

(** One call of [gameLoop(now)]. *)
Definition gameLoop (st : t) (now : R) : t :=
  if Js.gtb (now - lastFrame st) (1000 / FPS)
  then mk now (now :: rendered st)
  else st.

(** The calls that [requestAnimationFrame] makes, in order. *)
Definition run (nows : list R) (st : t) : t := fold_left gameLoop nows st.

(** Successive elements of a list are more than [gap] apart, decreasing. *)
Fixpoint spaced (gap : R) (times : list R) : Prop :=
  match times with
  | [] => True
  | t1 :: rest =>
      match rest with
      | [] => True
      | t0 :: _ => gap < t1 - t0
      end /\ spaced gap rest
  end.
End GameLoop.

(** ** The level of the demo ([src/demos/startdown/levels/level_1.ts]) *)

Module Level1.
Definition WALL : Z := 1.
Definition INSIDE_WALL : Z := 2.

(** The two registrations of [initializeTileDefinitions]. *)
Definition initializeTileDefinitions (defs : gmap Z TileDefinition.t)
    : gmap Z TileDefinition.t :=
  Map.registerTileDefinition 2
    (TileDefinition.mk INSIDE_WALL "inside_wall" "wall_blue" true None)
    (Map.registerTileDefinition 1
       (TileDefinition.mk WALL "wall" "wall" true None) defs).

Definition mapData : list (list Z) :=
  [ [1; 1; 1; 1; 1; 1; 1; 1; 1; 1; 1; 1; 1; 1; 1; 1];
    [1; 0; 0; 0; 0; 0; 0; 0; 0; 0; 0; 0; 0; 0; 0; 1];
    [1; 0; 0; 0; 0; 0; 0; 0; 0; 0; 0; 0; 0; 0; 0; 1];
    [1; 0; 0; 0; 0; 0; 0; 0; 0; 0; 0; 0; 0; 0; 0; 1];
    [1; 0; 0; 0; 0; 0; 0; 0; 0; 0; 0; 0; 0; 0; 0; 1];
    [1; 0; 0; 0; 0; 0; 2; 2; 2; 0; 0; 0; 0; 1; 1; 1];
    [1; 0; 0; 0; 0; 0; 2; 0; 2; 0; 0; 0; 0; 1; 0; 1];
    [1; 0; 0; 0; 0; 0; 2; 0; 2; 0; 0; 0; 0; 1; 0; 1];
    [1; 0; 0; 0; 0; 0; 2; 2; 2; 0; 0; 0; 0; 1; 0; 1];
    [1; 0; 0; 0; 0; 0; 0; 0; 0; 0; 0; 0; 0; 1; 1; 1];
    [1; 0; 0; 0; 0; 0; 0; 0; 0; 0; 0; 0; 0; 0; 0; 1];
    [1; 0; 0; 0; 0; 0; 0; 0; 0; 0; 0; 0; 0; 0; 0; 1];
    [1; 0; 0; 0; 0; 0; 0; 0; 0; 0; 0; 0; 0; 0; 0; 1];
    [1; 0; 0; 2; 2; 2; 2; 0; 0; 0; 0; 0; 0; 0; 0; 1];
    [1; 0; 0; 2; 0; 0; 2; 0; 0; 0; 0; 0; 0; 0; 0; 1];
    [1; 0; 0; 2; 0; 0; 2; 0; 0; 0; 0; 0; 0; 0; 0; 1];
    [1; 0; 0; 2; 0; 0; 2; 0; 0; 0; 0; 0; 0; 0; 0; 1];
    [1; 1; 1; 1; 1; 1; 2; 1; 1; 1; 1; 1; 1; 1; 1; 1] ]%Z.

(** The constructor: the base constructor registers the definitions and
    builds the tiles; the second call of [initializeTileDefinitions]
    registers them again. *)
Definition new (tm : TextureManager.t) : Map.t :=
  let m := Map.new (initializeTileDefinitions ∅) tm mapData "#525252" "#999" in
  Map.mk (Map.tiles m) (Map.floorTexture m) (Map.ceilingTexture m)
    (initializeTileDefinitions (Map.tileDefinitions m)) (Map.textureManager m).
End Level1.

(** The player of the demo, placed in the level. *)
Definition demo_player : PlayerEntity.t :=
  PlayerEntity.setMap (Level1.new no_textures)
    (PlayerEntity.new (64 * 1.5) (64 * 1.5)
       (PlayerEntity.Options.mk (Some 0.001%R) (Some 20%R) (Some 10%R)
          (Some 10%R) None)).

(** A renderer with another maximum ray distance. *)
Definition with_max_distance (rd : Renderer.t) (maxRayDistance : R) : Renderer.t :=
  Renderer.mk (Renderer.canvas rd) (Renderer.TILE_SIZE rd) (Renderer.FOV rd)
    (Renderer.NUM_RAYS rd) (Renderer.PROJECTION_PLANE_DISTANCE rd)
    (Renderer.DEFAULT_FOG_COLOR rd) maxRayDistance.

(** The renderer of the demo with rays of at most ten steps. *)
Definition short_rays : Renderer.t := with_max_distance demo_renderer 10.

(** The world point lies in a cell of the grid (tiles of 64 units) whose
    tile is not solid. *)
Definition open_at (m : Map.t) (point : R * R) : Prop :=
  exists tile,
    Map.getTile m (Zfloor (fst point / 64)) (Zfloor (snd point / 64)) = Some tile /\
    Tile.isSolid tile = false.

(** The player could move to where it stands. *)
Definition stands_clear (p : PlayerEntity.t) : Prop :=
  PlayerEntity.canMoveTo p (PlayerEntity.x p) (PlayerEntity.y p) = true.

(** The map data has [h] rows of [w] codes. *)
Definition data_rectangular (mapData : list (list Z)) (w h : nat) : Prop :=
  length mapData = h /\ Forall (fun row => length row = w) mapData.

(** The three colour bytes of the texel of a decoded image that serves the
    coordinates [(x, y)]. *)
Definition texel (img : ImageData.t) (x y : Z) : CssColor :=
  let cx := clamp_coord x (ImageData.width img) in
  let cy := clamp_coord y (ImageData.height img) in
  Rgb (ImageData.channel img cx cy 0) (ImageData.channel img cx cy 1)
      (ImageData.channel img cx cy 2).

(** * Properties *)

(** ** Array indexing and ranges *)

Section JsFacts.
Context {A : Type}.
Implicit Types (a : list A) (i : Z).

Lemma index_in_range a i :
  (0 <= i < Z.of_nat (length a))%Z -> exists v, Js.index a i = Some v.
Proof.
  intros [Hlo Hhi]. unfold Js.index.
  destruct (Z.ltb_spec i 0) as [Hneg | _]; [lia |].
  apply lookup_lt_is_Some_2. lia.
Qed.

Lemma index_out_of_range a i :
  ~ (0 <= i < Z.of_nat (length a))%Z -> Js.index a i = None.
Proof.
  intros Hout. unfold Js.index.
  destruct (Z.ltb_spec i 0) as [Hneg | Hpos]; [reflexivity |].
  apply lookup_ge_None_2. lia.
Qed.

Lemma index_Some_range a i v :
  Js.index a i = Some v ->
  (0 <= i < Z.of_nat (length a))%Z /\ a !! Z.to_nat i = Some v.
Proof.
  unfold Js.index. destruct (Z.ltb_spec i 0) as [Hneg | Hpos]; [discriminate |].
  intros Hv. split; [| exact Hv].
  apply lookup_lt_Some in Hv. lia.
Qed.

Lemma index_nil i : Js.index (@nil A) i = None.
Proof. unfold Js.index. destruct (i <? 0)%Z; reflexivity. Qed.

End JsFacts.

Lemma range_length lo hi : length (Js.range lo hi) = Z.to_nat (hi - lo).
Proof. unfold Js.range. now rewrite length_map, length_seq. Qed.

Lemma range_In lo hi y : In y (Js.range lo hi) <-> (lo <= y < hi)%Z.
Proof.
  unfold Js.range. rewrite in_map_iff. split.
  - intros (k & <- & Hk). apply in_seq in Hk. lia.
  - intros Hy. exists (Z.to_nat (y - lo)). split; [lia |].
    apply in_seq. lia.
Qed.

Lemma range_nth lo hi (k : nat) :
  (Z.of_nat k < hi - lo)%Z -> Js.range lo hi !! k = Some (lo + Z.of_nat k)%Z.
Proof.
  intros Hk. unfold Js.range.
  rewrite list_lookup_fmap, lookup_seq_lt by lia. reflexivity.
Qed.

Lemma ltb_true x y : Js.ltb x y = true <-> (x < y)%R.
Proof. unfold Js.ltb. destruct (Rlt_dec x y); split; intros; auto; discriminate. Qed.

Lemma ltb_false x y : Js.ltb x y = false <-> (y <= x)%R.
Proof.
  unfold Js.ltb. destruct (Rlt_dec x y); split; intros; auto; try discriminate; lra.
Qed.

Lemma gtb_true x y : Js.gtb x y = true <-> (y < x)%R.
Proof.
  unfold Js.gtb. destruct (Rgt_dec x y); split; intros; auto; discriminate.
Qed.

Lemma gtb_false x y : Js.gtb x y = false <-> (x <= y)%R.
Proof.
  unfold Js.gtb. destruct (Rgt_dec x y); split; intros; auto; try discriminate; lra.
Qed.

(** ** The tile grid *)

Lemma getTile_Some_in_grid m x y tile :
  Map.getTile m x y = Some tile ->
  exists row,
    Map.tiles m !! Z.to_nat y = Some row /\ row !! Z.to_nat x = Some tile /\
    (0 <= y < Z.of_nat (length (Map.tiles m)))%Z /\
    (0 <= x < Z.of_nat (length row))%Z.
Proof.
  unfold Map.getTile. destruct (Js.index (Map.tiles m) y) as [row |] eqn:Hrow;
    [| discriminate].
  intros Hx. apply index_Some_range in Hrow as [Hy Hrow'].
  apply index_Some_range in Hx as [Hx Hx'].
  exists row. auto.
Qed.

Lemma rectangular_row m w h row (k : nat) :
  Map.rectangular m w h -> Map.tiles m !! k = Some row -> length row = w.
Proof.
  intros [_ Hrows] Hk. rewrite Forall_forall in Hrows.
  apply Hrows. eapply list_elem_of_lookup_2. exact Hk.
Qed.

(** C2.  On a grid of [h] rows of [w] cells, [isSolid] is true at every pair
    of integer coordinates outside [[0,w) x [0,h)], and at every pair
    inside it is the [isSolid] flag of the tile stored at row [y],
    column [x]. *)
Theorem isSolid_closes_the_map (m : Map.t) (w h : nat) (x y : Z) :
  Map.rectangular m w h ->
  (~ in_bounds w h x y -> Map.isSolid m x y = true) /\
  (in_bounds w h x y ->
     exists row tile,
       Map.tiles m !! Z.to_nat y = Some row /\ row !! Z.to_nat x = Some tile /\
       Map.getTile m x y = Some tile /\
       Map.isSolid m x y = Tile.isSolid tile).
Proof.
  intros Hrect. split.
  - intros Hout. unfold Map.isSolid.
    destruct (Map.getTile m x y) as [tile |] eqn:Htile; [| reflexivity].
    exfalso. apply Hout.
    apply getTile_Some_in_grid in Htile as (row & Hrow & _ & Hy & Hx).
    rewrite (rectangular_row _ _ _ _ _ Hrect Hrow) in Hx.
    destruct Hrect as [Hh _]. rewrite Hh in Hy. split; assumption.
  - intros [Hx Hy]. pose proof Hrect as [Hh _].
    destruct (index_in_range (Map.tiles m) y) as [row Hrow]; [lia |].
    pose proof Hrow as Hrow'. apply index_Some_range in Hrow' as [_ Hlook].
    pose proof (rectangular_row _ _ _ _ _ Hrect Hlook) as Hlen.
    destruct (index_in_range row x) as [tile Htile]; [lia |].
    exists row, tile. unfold Map.isSolid, Map.getTile. rewrite Hrow, Htile.
    apply index_Some_range in Htile as [_ Htile']. auto.
Qed.

(** ** Tile creation *)

Lemma createTile_registered defs type definition :
  Map.createTile (Map.registerTileDefinition type definition defs) type
  = TileDefinition.as_tile definition.
Proof.
  unfold Map.createTile, Map.registerTileDefinition.
  now rewrite lookup_insert_eq.
Qed.

Lemma createTile_other defs type type' definition :
  type <> type' ->
  Map.createTile (Map.registerTileDefinition type definition defs) type'
  = Map.createTile defs type'.
Proof.
  intros Hne. unfold Map.createTile, Map.registerTileDefinition.
  now rewrite lookup_insert_ne.
Qed.

Lemma getTile_new defs tm mapData floor ceiling x y :
  Map.getTile (Map.new defs tm mapData floor ceiling) x y
  = match Js.index mapData y with
    | None => None
    | Some row => Map.createTile defs <$> Js.index row x
    end.
Proof.
  unfold Map.getTile, Map.new, Map.initializeTiles, Js.index. simpl.
  destruct (y <? 0)%Z; [reflexivity |].
  change (List.map ?f ?l) with (f <$> l).
  rewrite list_lookup_fmap.
  destruct (mapData !! Z.to_nat y) as [row |]; simpl; [| reflexivity].
  destruct (x <? 0)%Z; [reflexivity |].
  change (List.map ?f ?l) with (f <$> l).
  now rewrite list_lookup_fmap.
Qed.

(** C9, as stated, at the empty table and type code 0: the tile created
    is not one without a texture. *)
Lemma default_tile_names_a_texture :
  ~ (Tile.isSolid (Map.createTile ∅ 0) = false /\
     Tile.texture (Map.createTile ∅ 0) = None).
Proof. intros [_ Htex]. discriminate Htex. Qed.

(** C9, amended.  For a type code registered in the definition table,
    [createTile] returns the registered definition ([isSolid], [texture],
    [name] and the rest); for an unregistered code, 0 included, it returns
    the default tile: type 0, name ["empty"], not solid, and the texture
    name ["empty"].  Every cell of a constructed grid is the tile created
    for the type code at that place of the map data. *)
Theorem createTile_by_definition (defs : gmap Z TileDefinition.t) (type : Z) :
  (forall definition, defs !! type = Some definition ->
     Map.createTile defs type = TileDefinition.as_tile definition /\
     Tile.isSolid (Map.createTile defs type) = TileDefinition.isSolid definition /\
     Tile.texture (Map.createTile defs type)
       = Some (TileDefinition.texture definition)) /\
  (defs !! type = None ->
     Map.createTile defs type = Map.emptyTile /\
     Tile.type (Map.createTile defs type) = 0%Z /\
     Tile.name (Map.createTile defs type) = "empty" /\
     Tile.isSolid (Map.createTile defs type) = false /\
     Tile.texture (Map.createTile defs type) = Some "empty") /\
  (forall tm mapData floor ceiling x y row,
     Js.index mapData y = Some row -> Js.index row x = Some type ->
     Map.getTile (Map.new defs tm mapData floor ceiling) x y
     = Some (Map.createTile defs type)).
Proof.
  split; [| split].
  - intros definition Hdef. unfold Map.createTile. rewrite Hdef. auto.
  - intros Hdef. unfold Map.createTile. rewrite Hdef. auto.
  - intros tm mapData floor ceiling x y row Hrow Hcell.
    rewrite getTile_new, Hrow, Hcell. reflexivity.
Qed.

(** ** Texture sampling *)

Lemma clamp_coord_range v size :
  (1 <= size)%Z -> (0 <= clamp_coord v size < size)%Z.
Proof. unfold clamp_coord. lia. Qed.

Lemma clamp_coord_edge v size :
  (1 <= size)%Z ->
  ((v < 0)%Z -> clamp_coord v size = 0%Z) /\
  ((size <= v)%Z -> clamp_coord v size = (size - 1)%Z) /\
  ((0 <= v < size)%Z -> clamp_coord v size = v).
Proof. unfold clamp_coord. lia. Qed.

Lemma pixel_index_range w h x y c :
  (0 <= x < w)%Z -> (0 <= y < h)%Z -> (0 <= c < 4)%Z ->
  (0 <= (y * w + x) * 4 + c < 4 * w * h)%Z.
Proof. intros Hx Hy Hc. nia. Qed.

Lemma channel_defined img x y c :
  ImageData.wf img ->
  (0 <= x < ImageData.width img)%Z -> (0 <= y < ImageData.height img)%Z ->
  (0 <= c < 4)%Z ->
  exists v, ImageData.channel img x y c = Some v /\ (0 <= v <= 255)%Z.
Proof.
  intros (Hw & Hh & Hlen & Hbytes) Hx Hy Hc.
  pose proof (pixel_index_range _ _ _ _ _ Hx Hy Hc) as Hidx.
  unfold ImageData.channel.
  destruct (index_in_range (ImageData.data img)
              ((y * ImageData.width img + x) * 4 + c)%Z) as [v Hv]; [lia |].
  exists v. split; [exact Hv |].
  apply index_Some_range in Hv as [_ Hv].
  rewrite Forall_forall in Hbytes. apply Hbytes.
  eapply list_elem_of_lookup_2. exact Hv.
Qed.

(** C10.  [getTextureColor] answers white for a name with no decoded data.
    For a decoded image it reads the pixel at the coordinates clamped into
    the image: the clamped column is in [[0,width)], it is 0 left of the
    image, [width - 1] right of it and [x] itself inside (the same for
    rows); the three reads fall inside the pixel array, and the answer is
    made of the red, green and blue bytes of that pixel. *)
Theorem getTextureColor_clamps (tm : TextureManager.t) (name : string) (x y : Z) :
  (TextureManager.textureData tm !! name = None ->
     TextureManager.getTextureColor tm name x y = Hex_ffffff) /\
  (forall img,
     TextureManager.textureData tm !! name = Some img -> ImageData.wf img ->
     let cx := clamp_coord x (ImageData.width img) in
     let cy := clamp_coord y (ImageData.height img) in
     let index := ((cy * ImageData.width img + cx) * 4)%Z in
     (0 <= cx < ImageData.width img)%Z /\ (0 <= cy < ImageData.height img)%Z /\
     ((x < 0)%Z -> cx = 0%Z) /\
     ((ImageData.width img <= x)%Z -> cx = (ImageData.width img - 1)%Z) /\
     ((0 <= x < ImageData.width img)%Z -> cx = x) /\
     ((y < 0)%Z -> cy = 0%Z) /\
     ((ImageData.height img <= y)%Z -> cy = (ImageData.height img - 1)%Z) /\
     ((0 <= y < ImageData.height img)%Z -> cy = y) /\
     (0 <= index)%Z /\ (index + 2 < Z.of_nat (length (ImageData.data img)))%Z /\
     exists r g b,
       ImageData.channel img cx cy 0 = Some r /\
       ImageData.channel img cx cy 1 = Some g /\
       ImageData.channel img cx cy 2 = Some b /\
       (0 <= r <= 255)%Z /\ (0 <= g <= 255)%Z /\ (0 <= b <= 255)%Z /\
       TextureManager.getTextureColor tm name x y = Rgb (Some r) (Some g) (Some b)).
Proof.
  split.
  - intros Hnone. unfold TextureManager.getTextureColor. now rewrite Hnone.
  - intros img Himg Hwf cx cy index.
    pose proof Hwf as (Hw & Hh & Hlen & _).
    pose proof (clamp_coord_range x _ Hw) as Hcx.
    pose proof (clamp_coord_range y _ Hh) as Hcy.
    pose proof (clamp_coord_edge x _ Hw) as (Hx1 & Hx2 & Hx3).
    pose proof (clamp_coord_edge y _ Hh) as (Hy1 & Hy2 & Hy3).
    fold cx in Hcx, Hx1, Hx2, Hx3. fold cy in Hcy, Hy1, Hy2, Hy3.
    assert (H0 : (0 <= 0 < 4)%Z) by lia.
    assert (H2 : (0 <= 2 < 4)%Z) by lia.
    pose proof (pixel_index_range _ _ _ _ _ Hcx Hcy H0) as Hi0.
    pose proof (pixel_index_range _ _ _ _ _ Hcx Hcy H2) as Hi2.
    repeat (split; [first [assumption | subst index; lia] |]).
    destruct (channel_defined img cx cy 0 Hwf Hcx Hcy) as (r & Hr & Hr255); [lia |].
    destruct (channel_defined img cx cy 1 Hwf Hcx Hcy) as (g & Hg & Hg255); [lia |].
    destruct (channel_defined img cx cy 2 Hwf Hcx Hcy) as (b & Hb & Hb255); [lia |].
    exists r, g, b. repeat (split; [assumption |]).
    unfold TextureManager.getTextureColor. rewrite Himg.
    unfold ImageData.channel in Hr, Hg, Hb.
    fold (clamp_coord x (ImageData.width img)).
    fold (clamp_coord y (ImageData.height img)). fold cx cy.
    rewrite Z.add_0_r in Hr. rewrite Hr, Hg, Hb. reflexivity.
Qed.

(** ** The ray march *)

Section March.
Variables (rd : Renderer.t) (player : Player.t) (map : Map.t) (s c : R).

Local Open Scope R_scope.
Local Abbreviation MAX := (Renderer.MAX_RAY_DISTANCE rd).
Local Abbreviation K := (Renderer.march_fuel rd).
Local Abbreviation loop fuel st := (Renderer.march_loop fuel rd s c player map st).
Local Abbreviation body st := (Renderer.march_body rd s c player map st).
Local Abbreviation sx n := (sample_x rd player c n).
Local Abbreviation sy n := (sample_y rd player s n).
Local Abbreviation tile_at n := (sample_tile rd player map s c n).
Local Abbreviation scan fuel k := (first_solid rd player map s c fuel k).

(** The guard [distance < MAX_RAY_DISTANCE], when [distance] counts turns. *)
Lemma guard_counts (j : nat) : INR j < MAX <-> (j < K)%nat.
Proof.
  unfold Renderer.march_fuel.
  pose proof (Zceil_bound MAX) as [Hlo Hhi].
  rewrite INR_IZR_INZ. split.
  - intros Hj.
    assert (Hlt : (Z.of_nat j < Zceil MAX)%Z) by (apply lt_IZR; lra).
    lia.
  - intros Hj.
    assert (Hle : (Z.of_nat j <= Zceil MAX - 1)%Z) by lia.
    apply IZR_le in Hle. rewrite minus_IZR in Hle. lra.
Qed.

Lemma fuel_reaches_max : MAX <= INR K.
Proof.
  destruct (Rle_or_lt MAX (INR K)) as [H | H]; [exact H |].
  apply guard_counts in H. lia.
Qed.

Lemma fuel_is_least (j : nat) : MAX <= INR j -> (K <= j)%nat.
Proof.
  intros Hj. destruct (Nat.le_gt_cases K j) as [H | H]; [exact H |].
  apply guard_counts in H. lra.
Qed.

(** Once a tile is hit, or the distance has reached the maximum, the loop
    is over. *)
Lemma loop_over fuel st :
  Renderer.hit st = true \/ MAX <= Renderer.distance st -> loop fuel st = st.
Proof.
  intros Hstop. destruct fuel as [| fuel]; [reflexivity |]. simpl.
  destruct Hstop as [Hhit | Hmax].
  - now rewrite Hhit.
  - apply ltb_false in Hmax. rewrite Hmax. now rewrite andb_false_r.
Qed.

Lemma loop_split a b st : loop (a + b) st = loop b (loop a st).
Proof.
  revert st. induction a as [| a IH]; intros st; [reflexivity |]. simpl.
  destruct (negb (Renderer.hit st) && Js.ltb (Renderer.distance st) MAX) eqn:Hgo.
  - apply IH.
  - symmetry. apply loop_over.
    apply andb_false_iff in Hgo as [Hhit | Hmax].
    + left. now apply negb_false_iff.
    + right. now apply ltb_false.
Qed.

(** One turn adds one to the distance; the loop never lowers it. *)
Lemma body_distance st :
  Renderer.distance (body st) = Renderer.distance st + 1.
Proof.
  unfold Renderer.march_body.
  destruct (Renderer.solid _); reflexivity.
Qed.

Lemma loop_distance_grows fuel st :
  Renderer.distance st <= Renderer.distance (loop fuel st).
Proof.
  revert st. induction fuel as [| fuel IH]; intros st; simpl; [lra |].
  destruct (negb (Renderer.hit st) && Js.ltb (Renderer.distance st) MAX);
    [| lra].
  specialize (IH (body st)). rewrite body_distance in IH. lra.
Qed.

(** The turn after [k] turns without a hit. *)
Lemma body_after k hx hy :
  body (Renderer.mkMarch (INR k) false hx hy None)
  = if Renderer.solid (tile_at (S k))
    then Renderer.mkMarch (INR (S k)) true (sx (S k)) (sy (S k)) (tile_at (S k))
    else Renderer.mkMarch (INR (S k)) false (sx (S k)) (sy (S k)) None.
Proof.
  unfold Renderer.march_body, sample_tile, sample_x, sample_y.
  cbn [Renderer.distance Renderer.hit Renderer.hitTile].
  rewrite <- S_INR. reflexivity.
Qed.

(** The loop, turn by turn, is the search for the first solid sample. *)
Lemma loop_scans fuel : forall k hx hy,
  (k + fuel <= K)%nat ->
  loop fuel (Renderer.mkMarch (INR k) false hx hy None)
  = match scan fuel k with
    | Some n => Renderer.mkMarch (INR n) true (sx n) (sy n) (tile_at n)
    | None =>
        match fuel with
        | O => Renderer.mkMarch (INR k) false hx hy None
        | S _ => Renderer.mkMarch (INR (k + fuel)) false
                   (sx (k + fuel)%nat) (sy (k + fuel)%nat) None
        end
    end.
Proof.
  induction fuel as [| fuel IH]; intros k hx hy Hk; [reflexivity |].
  cbn [Renderer.march_loop first_solid Renderer.hit Renderer.distance negb andb].
  assert (Hgo : Js.ltb (INR k) MAX = true)
    by (apply ltb_true, guard_counts; lia).
  rewrite Hgo, body_after.
  destruct (Renderer.solid (tile_at (S k))) eqn:Hsolid.
  - apply loop_over. now left.
  - rewrite IH by lia.
    destruct (scan fuel (S k)); [reflexivity |].
    destruct fuel; rewrite ?Nat.add_1_r, ?Nat.add_succ_r; reflexivity.
Qed.

Lemma scan_Some fuel : forall k n,
  scan fuel k = Some n ->
  (k < n <= k + fuel)%nat /\ Renderer.solid (tile_at n) = true /\
  forall j, (k < j < n)%nat -> Renderer.solid (tile_at j) = false.
Proof.
  induction fuel as [| fuel IH]; intros k n; simpl; [discriminate |].
  destruct (Renderer.solid (tile_at (S k))) eqn:Hsolid.
  - intros [= <-]. split; [lia |]. split; [exact Hsolid |]. intros j Hj. lia.
  - intros Hscan. apply IH in Hscan as (Hn & Hhit & Hbefore).
    split; [lia |]. split; [exact Hhit |].
    intros j Hj. destruct (Nat.eq_dec j (S k)) as [-> | Hne]; [exact Hsolid |].
    apply Hbefore. lia.
Qed.

Lemma scan_None fuel : forall k,
  scan fuel k = None ->
  forall j, (k < j <= k + fuel)%nat -> Renderer.solid (tile_at j) = false.
Proof.
  induction fuel as [| fuel IH]; intros k; simpl; [intros _ j Hj; lia |].
  destruct (Renderer.solid (tile_at (S k))) eqn:Hsolid; [discriminate |].
  intros Hscan j Hj. destruct (Nat.eq_dec j (S k)) as [-> | Hne]; [exact Hsolid |].
  apply (IH (S k) Hscan). lia.
Qed.

Lemma scan_finds fuel : forall k n,
  (k < n <= k + fuel)%nat -> Renderer.solid (tile_at n) = true ->
  (forall j, (k < j < n)%nat -> Renderer.solid (tile_at j) = false) ->
  scan fuel k = Some n.
Proof.
  intros k n Hn Hhit Hbefore.
  destruct (scan fuel k) as [n' |] eqn:Hscan.
  - apply scan_Some in Hscan as (Hn' & Hhit' & Hbefore').
    destruct (Nat.lt_trichotomy n n') as [Hlt | [-> | Hgt]]; [| reflexivity |].
    + rewrite Hbefore' in Hhit by lia. discriminate.
    + rewrite Hbefore in Hhit' by lia. discriminate.
  - rewrite (scan_None _ _ Hscan n) in Hhit by lia. discriminate.
Qed.

Lemma scan_misses fuel k :
  (forall j, (k < j <= k + fuel)%nat -> Renderer.solid (tile_at j) = false) ->
  scan fuel k = None.
Proof.
  intros Hnone. destruct (scan fuel k) as [n |] eqn:Hscan; [| reflexivity].
  apply scan_Some in Hscan as (Hn & Hhit & _).
  rewrite Hnone in Hhit by lia. discriminate.
Qed.

End March.

(** ** castRay *)

Lemma solid_Some tile :
  Renderer.solid tile = true <->
  exists t, tile = Some t /\ Tile.isSolid t = true.
Proof.
  destruct tile as [t |]; simpl; split.
  - intros Ht. exists t. auto.
  - now intros (t' & [= <-] & Ht).
  - discriminate.
  - now intros (t' & [=] & _).
Qed.

Lemma solid_false tile :
  Renderer.solid tile = false <->
  tile = None \/ exists t, tile = Some t /\ Tile.isSolid t = false.
Proof.
  destruct tile as [t |]; simpl; split; auto.
  - intros Ht. right. exists t. auto.
  - intros [[=] | (t' & [= <-] & Ht)]. exact Ht.
Qed.

Lemma loop_from_init rd s c player map :
  Renderer.march_loop (Renderer.march_fuel rd) rd s c player map
    Renderer.march_init
  = match first_solid rd player map s c (Renderer.march_fuel rd) 0 with
    | Some n =>
        Renderer.mkMarch (INR n) true (sample_x rd player c n)
          (sample_y rd player s n) (sample_tile rd player map s c n)
    | None =>
        match Renderer.march_fuel rd with
        | O => Renderer.march_init
        | S _ =>
            Renderer.mkMarch (INR (Renderer.march_fuel rd)) false
              (sample_x rd player c (Renderer.march_fuel rd))
              (sample_y rd player s (Renderer.march_fuel rd)) None
        end
    end.
Proof.
  unfold Renderer.march_init. change 0%R with (INR 0) at 1.
  rewrite loop_scans by lia.
  destruct (first_solid _ _ _ _ _ _ _); [reflexivity |].
  destruct (Renderer.march_fuel rd); reflexivity.
Qed.

(** [castRay] is the search for the first solid sample among the turns that
    the maximum distance allows. *)
Lemma castRay_scans rd angle player map :
  Renderer.castRay rd angle player map
  = match first_solid rd player map (sin angle) (cos angle)
            (Renderer.march_fuel rd) 0 with
    | Some n =>
        RayHit.mk (INR n) (sample_x rd player (cos angle) n)
          (sample_y rd player (sin angle) n)
          (sample_tile rd player map (sin angle) (cos angle) n)
    | None =>
        match Renderer.march_fuel rd with
        | O => RayHit.mk 0 0 0 None
        | S _ =>
            RayHit.mk (INR (Renderer.march_fuel rd))
              (sample_x rd player (cos angle) (Renderer.march_fuel rd))
              (sample_y rd player (sin angle) (Renderer.march_fuel rd)) None
        end
    end.
Proof.
  unfold Renderer.castRay. rewrite loop_from_init.
  destruct (first_solid _ _ _ _ _ _ _); [reflexivity |].
  destruct (Renderer.march_fuel rd); reflexivity.
Qed.

Lemma castRay_hit rd angle player map (n : nat) :
  (1 <= n <= Renderer.march_fuel rd)%nat ->
  Renderer.solid (sample_tile rd player map (sin angle) (cos angle) n) = true ->
  (forall j, (1 <= j < n)%nat ->
     Renderer.solid (sample_tile rd player map (sin angle) (cos angle) j) = false) ->
  Renderer.castRay rd angle player map
  = RayHit.mk (INR n) (sample_x rd player (cos angle) n)
      (sample_y rd player (sin angle) n)
      (sample_tile rd player map (sin angle) (cos angle) n).
Proof.
  intros Hn Hhit Hbefore. rewrite castRay_scans.
  rewrite (scan_finds _ _ _ _ _ _ 0%nat n);
    [reflexivity | lia | exact Hhit | intros j Hj; apply Hbefore; lia].
Qed.

Lemma castRay_miss rd angle player map :
  (forall j, (1 <= j <= Renderer.march_fuel rd)%nat ->
     Renderer.solid (sample_tile rd player map (sin angle) (cos angle) j) = false) ->
  RayHit.tile (Renderer.castRay rd angle player map) = None /\
  RayHit.distance (Renderer.castRay rd angle player map)
  = INR (Renderer.march_fuel rd).
Proof.
  intros Hnone. rewrite castRay_scans.
  rewrite scan_misses by (intros j Hj; apply Hnone; lia).
  destruct (Renderer.march_fuel rd); split; reflexivity.
Qed.

(** The fuel of [castRay] ends the loop: more turns change nothing. *)
Lemma castRay_fuel_enough rd s c player map extra :
  Renderer.march_loop (Renderer.march_fuel rd + extra) rd s c player map
    Renderer.march_init
  = Renderer.march_loop (Renderer.march_fuel rd) rd s c player map
      Renderer.march_init.
Proof.
  rewrite loop_split. apply loop_over. rewrite loop_from_init.
  destruct (first_solid _ _ _ _ _ _ _); [now left |]. right.
  pose proof (fuel_reaches_max rd) as Hmax.
  destruct (Renderer.march_fuel rd); exact Hmax.
Qed.

Lemma fuel_of_natural rd (m : nat) :
  Renderer.MAX_RAY_DISTANCE rd = INR m -> Renderer.march_fuel rd = m.
Proof.
  intros Hm. apply Nat.le_antisymm.
  - apply fuel_is_least. rewrite Hm. lra.
  - pose proof (fuel_reaches_max rd) as Hmax. rewrite Hm in Hmax.
    now apply INR_le.
Qed.

Lemma fuel_below_max rd :
  (INR (Renderer.march_fuel rd) < Rmax 0 (Renderer.MAX_RAY_DISTANCE rd) + 1)%R.
Proof.
  destruct (Renderer.march_fuel rd) as [| k] eqn:Hk.
  - simpl. pose proof (Rmax_l 0 (Renderer.MAX_RAY_DISTANCE rd)). lra.
  - assert (Hlt : (INR k < Renderer.MAX_RAY_DISTANCE rd)%R)
      by (apply guard_counts; lia).
    rewrite S_INR. pose proof (Rmax_r 0 (Renderer.MAX_RAY_DISTANCE rd)). lra.
Qed.

(** C1, as stated, on a map of one open cell: the sample of turn 32 is out
    of bounds, where [isSolid] answers true, and no turn before it is; the
    march does not stop there, it goes on to the maximum distance and
    reports no tile. *)
Lemma march_passes_where_isSolid_holds :
  let player := Player.mk 32 32 0 in
  let ray := Renderer.castRay demo_renderer 0 player open_cell in
  Map.isSolid open_cell
    (Zfloor (sample_x demo_renderer player (cos 0) 32))
    (Zfloor (sample_y demo_renderer player (sin 0) 32)) = true /\
  RayHit.tile ray = None /\
  RayHit.distance ray = 1000%R /\
  RayHit.distance ray <> 32%R.
Proof.
  intros player ray.
  assert (Hfuel : Renderer.march_fuel demo_renderer = 1000%nat).
  { apply fuel_of_natural. rewrite INR_IZR_INZ. reflexivity. }
  assert (Hopen : forall x y, Renderer.solid (Map.getTile open_cell x y) = false).
  { intros x y. unfold open_cell. rewrite getTile_new. unfold Js.index.
    destruct (y <? 0)%Z; [reflexivity |].
    destruct (Z.to_nat y) as [| y']; [| reflexivity]. simpl.
    destruct (x <? 0)%Z; [reflexivity |].
    destruct (Z.to_nat x) as [| x']; reflexivity. }
  destruct (castRay_miss demo_renderer 0 player open_cell) as [Htile Hdist].
  { intros j _. apply Hopen. }
  fold ray in Htile, Hdist. rewrite Hfuel, INR_IZR_INZ in Hdist.
  change (IZR (Z.of_nat 1000)) with 1000%R in Hdist.
  split; [| split; [exact Htile | split; [exact Hdist | rewrite Hdist; lra]]].
  unfold sample_x, sample_y. rewrite cos_0, sin_0.
  cbn [Player.x Player.y player demo_renderer Renderer.new Renderer.TILE_SIZE
       Renderer.no_options Renderer.tileSize default].
  rewrite INR_IZR_INZ. change (IZR (Z.of_nat 32)) with 32%R.
  rewrite (Zfloor_eq 1) by lra. rewrite (Zfloor_eq 0) by lra.
  reflexivity.
Qed.

(** C1, amended.  [castRay] tests one sample per turn, [n] world units from
    the origin along [(cos angle, sin angle)] at turn [n], in the cell
    obtained by dividing by the tile size and flooring; it looks that cell
    up with [getTile] and stops at the first turn whose cell holds a tile
    with [isSolid] set, reporting that tile and that sample (a cell out of
    bounds is no hit).  If no turn finds one it reports no tile and the
    number of turns of the whole march: the least natural number that is
    not below [MAX_RAY_DISTANCE], which is [MAX_RAY_DISTANCE] itself when
    that is a natural number.  The distance never decreases from turn to
    turn, and the reported distance is below [max(MAX_RAY_DISTANCE, 0) + 1].
    The loop is run to its end. *)
Theorem castRay_marches (rd : Renderer.t) (angle : R) (player : Player.t)
    (map : Map.t) :
  let ray := Renderer.castRay rd angle player map in
  let tile_at := sample_tile rd player map (sin angle) (cos angle) in
  (forall extra,
     Renderer.march_loop (Renderer.march_fuel rd + extra) rd (sin angle)
       (cos angle) player map Renderer.march_init
     = Renderer.march_loop (Renderer.march_fuel rd) rd (sin angle) (cos angle)
         player map Renderer.march_init) /\
  (forall st fuel,
     (Renderer.distance st
      <= Renderer.distance
           (Renderer.march_body rd (sin angle) (cos angle) player map st))%R /\
     (Renderer.distance st
      <= Renderer.distance
           (Renderer.march_loop fuel rd (sin angle) (cos angle) player map st))%R) /\
  (forall m : nat,
     Renderer.MAX_RAY_DISTANCE rd = INR m -> Renderer.march_fuel rd = m) /\
  exists n : nat,
    RayHit.distance ray = INR n /\
    (n <= Renderer.march_fuel rd)%nat /\
    (INR n < Rmax 0 (Renderer.MAX_RAY_DISTANCE rd) + 1)%R /\
    ((1 <= n)%nat ->
       RayHit.hitX ray = sample_x rd player (cos angle) n /\
       RayHit.hitY ray = sample_y rd player (sin angle) n) /\
    (forall j, (1 <= j < n)%nat -> Renderer.solid (tile_at j) = false) /\
    (((1 <= n)%nat /\
      exists tile, tile_at n = Some tile /\ Tile.isSolid tile = true /\
                   RayHit.tile ray = Some tile)
     \/
     (RayHit.tile ray = None /\ n = Renderer.march_fuel rd /\
      (Renderer.MAX_RAY_DISTANCE rd <= INR n)%R /\
      forall j, (1 <= j <= n)%nat -> Renderer.solid (tile_at j) = false)).
Proof.
  intros ray tile_at.
  split; [intros extra; apply castRay_fuel_enough |].
  split.
  { intros st fuel. split; [rewrite body_distance; lra |].
    apply loop_distance_grows. }
  split; [apply fuel_of_natural |].
  pose proof (fuel_below_max rd) as Hbelow.
  subst ray. rewrite castRay_scans.
  destruct (first_solid rd player map (sin angle) (cos angle)
              (Renderer.march_fuel rd) 0) as [n |] eqn:Hscan.
  - apply scan_Some in Hscan as (Hn & Hhit & Hbefore).
    apply solid_Some in Hhit as (tile & Htile & Hsolid).
    exists n. cbn [RayHit.distance RayHit.hitX RayHit.hitY RayHit.tile].
    split; [reflexivity |]. split; [lia |]. split.
    { assert (INR n <= INR (Renderer.march_fuel rd))%R by (apply le_INR; lia).
      lra. }
    split; [auto |]. split; [intros j Hj; apply Hbefore; lia |].
    left. split; [lia |]. exists tile.
    split; [exact Htile | split; [exact Hsolid | exact Htile]].
  - pose proof (scan_None _ _ _ _ _ _ _ Hscan) as Hnone.
    exists (Renderer.march_fuel rd).
    pose proof (fuel_reaches_max rd) as Hmax.
    destruct (Renderer.march_fuel rd) as [| k] eqn:Hk;
      cbn [RayHit.distance RayHit.hitX RayHit.hitY RayHit.tile].
    + split; [reflexivity |]. split; [lia |]. split; [exact Hbelow |].
      split; [intros Habs; lia |]. split; [intros j Hj; lia |].
      right. split; [reflexivity |]. split; [reflexivity |].
      split; [exact Hmax |]. intros j Hj. lia.
    + split; [reflexivity |]. split; [lia |]. split; [exact Hbelow |].
      split; [auto |]. split; [intros j Hj; apply Hnone; lia |].
      right. split; [reflexivity |]. split; [reflexivity |].
      split; [exact Hmax |]. intros j Hj. apply Hnone. lia.
Qed.

Lemma getTile_no_rows m x y : Map.tiles m = [] -> Map.getTile m x y = None.
Proof. intros Hm. unfold Map.getTile. now rewrite Hm, index_nil. Qed.

Lemma demo_fuel : Renderer.march_fuel demo_renderer = 1000%nat.
Proof. apply fuel_of_natural. rewrite INR_IZR_INZ. reflexivity. Qed.

(** C3, as stated, for the renderer of the demo, its viewer at (96, 96)
    looking along angle 0, and a map with no row: the ray reports no tile,
    and a distance of 1000, not the tile size 64. *)
Lemma empty_grid_ray_reports_no_hit :
  let ray := Renderer.castRay demo_renderer 0 (Player.mk 96 96 0) empty_map in
  RayHit.tile ray = None /\
  RayHit.distance ray = 1000%R /\
  RayHit.distance ray <> Renderer.TILE_SIZE demo_renderer.
Proof.
  intros ray.
  destruct (castRay_miss demo_renderer 0 (Player.mk 96 96 0) empty_map)
    as [Htile Hdist].
  { intros j _. unfold sample_tile.
    now rewrite (getTile_no_rows empty_map) by reflexivity. }
  fold ray in Htile, Hdist. rewrite demo_fuel, INR_IZR_INZ in Hdist.
  change (IZR (Z.of_nat 1000)) with 1000%R in Hdist.
  split; [exact Htile |]. split; [exact Hdist |].
  rewrite Hdist. cbn. lra.
Qed.

(** C3, amended.  On a map with no row, [getTile] is absent and [isSolid]
    is true at every cell, and no ray ever hits: whatever the renderer, the
    pose and the angle, [castRay] reports no tile, after the whole march,
    at the least natural number not below [MAX_RAY_DISTANCE]. *)
Theorem empty_grid_never_hit (rd : Renderer.t) (angle : R) (player : Player.t)
    (m : Map.t) :
  Map.tiles m = [] ->
  let ray := Renderer.castRay rd angle player m in
  (forall x y, Map.getTile m x y = None /\ Map.isSolid m x y = true) /\
  RayHit.tile ray = None /\
  RayHit.distance ray = INR (Renderer.march_fuel rd) /\
  (Renderer.MAX_RAY_DISTANCE rd <= RayHit.distance ray)%R /\
  (RayHit.distance ray < Rmax 0 (Renderer.MAX_RAY_DISTANCE rd) + 1)%R.
Proof.
  intros Hm ray.
  assert (Hnone : forall x y, Map.getTile m x y = None)
    by (intros x y; now apply getTile_no_rows).
  split.
  { intros x y. split; [apply Hnone |]. unfold Map.isSolid. now rewrite Hnone. }
  destruct (castRay_miss rd angle player m) as [Htile Hdist].
  { intros j _. unfold sample_tile. now rewrite Hnone. }
  fold ray in Htile, Hdist. rewrite Hdist.
  pose proof (fuel_reaches_max rd). pose proof (fuel_below_max rd). auto.
Qed.

(** Turn [n] of the march is run exactly when the distance before it,
    [n - 1], is below the maximum. *)
Lemma turn_in_march rd (n : nat) :
  (1 <= n)%nat ->
  (INR n - 1 < Renderer.MAX_RAY_DISTANCE rd)%R <-> (n <= Renderer.march_fuel rd)%nat.
Proof.
  intros Hn. destruct n as [| k]; [lia |].
  rewrite S_INR. replace (INR k + 1 - 1)%R with (INR k) by lra.
  rewrite guard_counts. lia.
Qed.

(** C4.  When [castRay] reports a tile, that tile has [isSolid] set and is
    the one stored in the grid at the floored hit point, which lies inside
    the grid.  A march that ends on a sample whose cell is out of bounds
    ends there because the maximum distance is reached, and reports no
    tile.  The samples of the march are those of the turns [n >= 1] with
    [n - 1 < MAX_RAY_DISTANCE]: when each of them falls on a cell that is
    out of bounds or holds a tile that is not solid, whatever lies farther
    along the ray, the march goes on to the maximum distance and reports no
    tile; and a ray reports no tile only then. *)
Theorem castRay_hits_only_solid_tiles (rd : Renderer.t) (angle : R)
    (player : Player.t) (map : Map.t) :
  let ray := Renderer.castRay rd angle player map in
  let tile_at := sample_tile rd player map (sin angle) (cos angle) in
  (forall tile, RayHit.tile ray = Some tile ->
     Tile.isSolid tile = true /\
     Map.getTile map (Zfloor (RayHit.hitX ray)) (Zfloor (RayHit.hitY ray))
       = Some tile /\
     exists row,
       Map.tiles map !! Z.to_nat (Zfloor (RayHit.hitY ray)) = Some row /\
       row !! Z.to_nat (Zfloor (RayHit.hitX ray)) = Some tile /\
       (0 <= Zfloor (RayHit.hitY ray) < Z.of_nat (length (Map.tiles map)))%Z /\
       (0 <= Zfloor (RayHit.hitX ray) < Z.of_nat (length row))%Z) /\
  (forall n : nat, (1 <= n)%nat -> tile_at n = None ->
     RayHit.distance ray = INR n ->
     RayHit.tile ray = None /\ (Renderer.MAX_RAY_DISTANCE rd <= INR n)%R) /\
  ((forall n : nat, (1 <= n)%nat ->
      (INR n - 1 < Renderer.MAX_RAY_DISTANCE rd)%R ->
      tile_at n = None \/
      exists tile, tile_at n = Some tile /\ Tile.isSolid tile = false) ->
   RayHit.tile ray = None /\
   RayHit.distance ray = INR (Renderer.march_fuel rd) /\
   (Renderer.MAX_RAY_DISTANCE rd <= RayHit.distance ray)%R) /\
  (RayHit.tile ray = None ->
   forall n : nat, (1 <= n)%nat ->
     (INR n - 1 < Renderer.MAX_RAY_DISTANCE rd)%R ->
     tile_at n = None \/
     exists tile, tile_at n = Some tile /\ Tile.isSolid tile = false).
Proof.
  intros ray tile_at.
  pose proof (fuel_reaches_max rd) as Hmax.
  split; [| split; [| split]].
  - intros tile. subst ray. rewrite castRay_scans.
    destruct (first_solid rd player map (sin angle) (cos angle)
                (Renderer.march_fuel rd) 0) as [n |] eqn:Hscan.
    + apply scan_Some in Hscan as (_ & Hhit & _).
      cbn [RayHit.tile RayHit.hitX RayHit.hitY]. intros Htile.
      rewrite Htile in Hhit. split; [exact Hhit |].
      split; [exact Htile |].
      apply getTile_Some_in_grid in Htile as (row & Hrow & Hcell & Hy & Hx).
      exists row. auto.
    + destruct (Renderer.march_fuel rd); discriminate.
  - intros n Hn Hout. subst ray. rewrite castRay_scans.
    destruct (first_solid rd player map (sin angle) (cos angle)
                (Renderer.march_fuel rd) 0) as [n' |] eqn:Hscan.
    + apply scan_Some in Hscan as (_ & Hhit & _).
      cbn [RayHit.distance RayHit.tile]. intros Hdist.
      apply INR_eq in Hdist. subst n'. fold (tile_at n) in Hhit.
      rewrite Hout in Hhit. discriminate.
    + destruct (Renderer.march_fuel rd) as [| k] eqn:Hk;
        cbn [RayHit.distance RayHit.tile]; intros Hdist.
      * change 0%R with (INR 0) in Hdist. apply INR_eq in Hdist. lia.
      * apply INR_eq in Hdist. subst n. auto.
  - intros Hopen.
    destruct (castRay_miss rd angle player map) as [Htile Hdist].
    { intros j Hj. apply solid_false. apply Hopen; [lia |].
      apply turn_in_march; lia. }
    fold ray in Htile, Hdist. rewrite Hdist. auto.
  - subst ray. rewrite castRay_scans.
    destruct (first_solid rd player map (sin angle) (cos angle)
                (Renderer.march_fuel rd) 0) as [n' |] eqn:Hscan.
    + apply scan_Some in Hscan as (_ & Hhit & _).
      apply solid_Some in Hhit as (tile & Htile & _).
      cbn [RayHit.tile]. rewrite Htile. discriminate.
    + intros _ n Hn Hrun. apply solid_false.
      apply (scan_None _ _ _ _ _ _ _ Hscan). apply turn_in_march in Hrun; lia.
Qed.

(** ** Rounding *)

Section Rounding.
Local Open Scope R_scope.

Lemma round_integer (z : Z) : Js.round (IZR z) = z.
Proof. unfold Js.round. apply Zfloor_eq. lra. Qed.

Lemma round_bounds (v : R) : - (1 / 2) <= v - IZR (Js.round v) < 1 / 2.
Proof. unfold Js.round. pose proof (Zfloor_bound (v + 1 / 2)). lra. Qed.

(** [Math.round] picks an integer nearest to its argument. *)
Lemma round_gap_least (v : R) (k : Z) : round_gap v <= Rabs (v - IZR k).
Proof.
  unfold round_gap. pose proof (round_bounds v) as Hv.
  destruct (Z.lt_trichotomy k (Js.round v)) as [Hlt | [-> | Hgt]].
  - assert (Hk : (k <= Js.round v - 1)%Z) by lia.
    apply IZR_le in Hk. rewrite minus_IZR in Hk.
    unfold Rabs. repeat destruct (Rcase_abs _); lra.
  - lra.
  - assert (Hk : (Js.round v + 1 <= k)%Z) by lia.
    apply IZR_le in Hk. rewrite plus_IZR in Hk.
    unfold Rabs. repeat destruct (Rcase_abs _); lra.
Qed.

Lemma frac_range (v : R) : 0 <= frac v < 1.
Proof. unfold frac, Js.floor. pose proof (Zfloor_bound v). lra. Qed.

Lemma round_gap_source (v : R) : Rabs (v - Js.floor (v + 0.5)) = round_gap v.
Proof.
  unfold round_gap, Js.round, Js.floor.
  replace (v + 0.5) with (v + 1 / 2) by lra. reflexivity.
Qed.

End Rounding.

(** ** Fog *)

Section Fog.
Local Open Scope R_scope.

Lemma fogFactor_near d : d <= 300 -> Renderer.fogFactor d = 0.
Proof.
  intros Hd. unfold Renderer.fogFactor, Renderer.fogStart, Renderer.fogEnd.
  rewrite Rmax_left; [reflexivity |].
  apply Rle_trans with ((d - 300) / (700 - 300)); [apply Rmin_r | lra].
Qed.



Lemma blend_clear c fog : Renderer.blend c fog 0 = c.
Proof.
  unfold Renderer.blend.
  replace (IZR c * (1 - 0) + fog * 0) with (IZR c) by lra.
  apply round_integer.
Qed.






End Fog.

(** ** Columns of the frame *)

Section Columns.
Local Open Scope R_scope.

(** C7.  The choice of the texture column compares the distance from
    [hitX] to its rounded value with the distance from [hitY] to its
    rounded value, each the distance to the nearest integer.  When [hitY]
    is the nearer to an integer the column comes from the fractional part
    of [hitX]; when [hitX] is the nearer, or on a tie, from the fractional
    part of [hitY]; in each case it is the floor of that fractional part
    times the tile size. *)
Theorem wall_face_tie_break (rd : Renderer.t) (hitX hitY : R) :
  (forall k : Z, round_gap hitX <= Rabs (hitX - IZR k)) /\
  (forall k : Z, round_gap hitY <= Rabs (hitY - IZR k)) /\
  Renderer.wallX hitX hitY
    = (if Js.gtb (round_gap hitX) (round_gap hitY) then frac hitX else frac hitY) /\
  (round_gap hitY < round_gap hitX ->
     Renderer.textureX rd hitX hitY = Zfloor (frac hitX * Renderer.TILE_SIZE rd)) /\
  (round_gap hitX < round_gap hitY ->
     Renderer.textureX rd hitX hitY = Zfloor (frac hitY * Renderer.TILE_SIZE rd)) /\
  (round_gap hitX = round_gap hitY ->
     Renderer.textureX rd hitX hitY = Zfloor (frac hitY * Renderer.TILE_SIZE rd)) /\
  (0 < Renderer.TILE_SIZE rd ->
     (0 <= Renderer.textureX rd hitX hitY)%Z /\
     IZR (Renderer.textureX rd hitX hitY) < Renderer.TILE_SIZE rd).
Proof.
  assert (HwallX : Renderer.wallX hitX hitY
    = (if Js.gtb (round_gap hitX) (round_gap hitY) then frac hitX else frac hitY)).
  { unfold Renderer.wallX. now rewrite !round_gap_source. }
  split; [apply round_gap_least |].
  split; [apply round_gap_least |].
  split; [exact HwallX |].
  unfold Renderer.textureX. rewrite HwallX.
  split; [| split; [| split]].
  - intros Hy. apply gtb_true in Hy. now rewrite Hy.
  - intros Hx. assert (Hle : round_gap hitX <= round_gap hitY) by lra.
    apply gtb_false in Hle. now rewrite Hle.
  - intros Heq. assert (Hle : round_gap hitX <= round_gap hitY) by lra.
    apply gtb_false in Hle. now rewrite Hle.
  - intros Hts.
    set (f := if Js.gtb (round_gap hitX) (round_gap hitY)
              then frac hitX else frac hitY).
    assert (Hf : 0 <= f < 1).
    { subst f. destruct (Js.gtb _ _); apply frac_range. }
    pose proof (Zfloor_bound (f * Renderer.TILE_SIZE rd)) as [Hlo Hhi].
    split.
    + apply (Zfloor_lub 0). simpl. nra.
    + nra.
Qed.

Lemma rays_length rd player map :
  length (Renderer.rays rd player map) = Z.to_nat (Renderer.NUM_RAYS rd).
Proof.
  unfold Renderer.rays. rewrite length_map, range_length. f_equal. lia.
Qed.

(** Every rectangle of a frame is the ceiling fill, the floor fill, or a
    pixel of one of the columns; a column whose ray reports no tile draws
    nothing. *)
Lemma render_draws_columns rd player map f :
  In f (Renderer.render rd player map) ->
  fillStyle f = Style_name (Map.getCeilingTexture map) \/
  fillStyle f = Style_name (Map.getFloorTexture map) \/
  exists i : Z, (0 <= i < Renderer.NUM_RAYS rd)%Z /\
    In f (Renderer.render_column rd player map i).
Proof.
  unfold Renderer.render. intros [<- | [<- | Hin]]; [now left | now right; left |].
  right. right. apply in_flat_map in Hin as (i & Hi & Hf).
  apply range_In in Hi. exists i. split; [lia | exact Hf].
Qed.

Lemma render_column_no_hit rd player map i :
  RayHit.tile (Renderer.castRay rd (Renderer.rayAngle rd player i) player map)
    = None ->
  Renderer.render_column rd player map i = [].
Proof. intros Hmiss. unfold Renderer.render_column. now rewrite Hmiss. Qed.

(** The frame, as the list of its columns. *)
Lemma render_by_columns rd player map :
  Renderer.render rd player map
  = mkFillRect (Style_name (Map.getCeilingTexture map)) 0 0
      (IZR (Canvas.width (Renderer.canvas rd)))
      (IZR (Canvas.height (Renderer.canvas rd)) / 2)
    :: mkFillRect (Style_name (Map.getFloorTexture map)) 0
         (IZR (Canvas.height (Renderer.canvas rd)) / 2)
         (IZR (Canvas.width (Renderer.canvas rd)))
         (IZR (Canvas.height (Renderer.canvas rd)) / 2)
    :: concat (List.map (Renderer.render_column rd player map)
                 (Js.range 0 (Renderer.NUM_RAYS rd))).
Proof. unfold Renderer.render. now rewrite flat_map_concat_map. Qed.

Lemma columns_nth rd player map (i : Z) :
  (0 <= i < Renderer.NUM_RAYS rd)%Z ->
  List.map (Renderer.render_column rd player map)
    (Js.range 0 (Renderer.NUM_RAYS rd)) !! Z.to_nat i
  = Some (Renderer.render_column rd player map i).
Proof.
  intros Hi. change (List.map ?f ?l) with (f <$> l).
  rewrite list_lookup_fmap, range_nth by lia.
  cbn [fmap option_fmap option_map]. do 2 f_equal. lia.
Qed.

(** C8.  The frame is the ceiling fill and the floor fill followed by one
    column of pixels per ray, [NUM_RAYS] columns in all, in order.  The
    ray of column [i] is cast at angle
    [angle - FOV / 2 + (i / NUM_RAYS) * FOV]; the wall height of the column
    is [TILE_SIZE * PROJECTION_PLANE_DISTANCE / (distance + 0.0001)] for
    the distance of that ray.  A column whose ray reports no tile is empty;
    one whose ray reports a tile holds exactly one pixel for each row from
    [floor((height - wallHeight) / 2)] up to, and not including,
    [floor((height + wallHeight) / 2)], at abscissa [i], in the colour that
    [getWallColor] gives for the tile, the texture column, the texture row
    of that wall height and the distance.  With tile size 64 and
    projection distance 256 a column whose ray reports distance 64 has a
    wall height between 255.999 and 256. *)
Theorem ray_fan_and_wall_height (rd : Renderer.t) (player : Player.t)
    (map : Map.t) :
  let N := Renderer.NUM_RAYS rd in
  let W := IZR (Canvas.width (Renderer.canvas rd)) in
  let H := IZR (Canvas.height (Renderer.canvas rd)) in
  let rayAngle (i : Z) :=
    Player.angle player - Renderer.FOV rd / 2
    + (IZR i / IZR N) * Renderer.FOV rd in
  let ray (i : Z) := Renderer.castRay rd (rayAngle i) player map in
  let wallHeight (i : Z) :=
    Renderer.TILE_SIZE rd * Renderer.PROJECTION_PLANE_DISTANCE rd
    / (RayHit.distance (ray i) + 0.0001) in
  let top (i : Z) := Zfloor ((H - wallHeight i) / 2) in
  let bottom (i : Z) := Zfloor ((H + wallHeight i) / 2) in
  (exists columns : list (list FillRect),
     Renderer.render rd player map
     = mkFillRect (Style_name (Map.getCeilingTexture map)) 0 0 W (H / 2)
       :: mkFillRect (Style_name (Map.getFloorTexture map)) 0 (H / 2) W (H / 2)
       :: concat columns /\
     length columns = Z.to_nat N /\
     forall i : Z, (0 <= i < N)%Z ->
       exists pixels : list FillRect,
         columns !! Z.to_nat i = Some pixels /\
         (RayHit.tile (ray i) = None -> pixels = []) /\
         (RayHit.tile (ray i) <> None ->
          length pixels = Z.to_nat (bottom i - top i) /\
          forall y : Z, (top i <= y < bottom i)%Z ->
            pixels !! Z.to_nat (y - top i)
            = Some (mkFillRect
                      (Style_color
                         (Renderer.getWallColor rd (RayHit.tile (ray i))
                            (Renderer.textureX rd (RayHit.hitX (ray i))
                               (RayHit.hitY (ray i)))
                            (Renderer.textureY rd (wallHeight i) y) map
                            (RayHit.distance (ray i))))
                      (IZR i) (IZR y) 1 1))) /\
  (Renderer.TILE_SIZE rd = 64 -> Renderer.PROJECTION_PLANE_DISTANCE rd = 256 ->
   forall i : Z, RayHit.distance (ray i) = 64 ->
     255.999 < wallHeight i < 256 /\ Rabs (wallHeight i - 256) < 0.001).
Proof.
  intros N W H rayAngle ray wallHeight top bottom. split.
  - exists (List.map (Renderer.render_column rd player map) (Js.range 0 N)).
    split; [apply render_by_columns |].
    split; [rewrite length_map, range_length; f_equal; lia |].
    intros i Hi. exists (Renderer.render_column rd player map i).
    split; [now apply columns_nth |].
    unfold Renderer.render_column.
    change (Renderer.castRay rd (Renderer.rayAngle rd player i) player map)
      with (ray i).
    change (Renderer.wallHeight rd (RayHit.distance (ray i)))
      with (wallHeight i).
    change (Renderer.drawStart rd (wallHeight i)) with (top i).
    change (Renderer.drawEnd rd (wallHeight i)) with (bottom i).
    destruct (RayHit.tile (ray i)) as [tile |] eqn:Htile.
    + split; [discriminate |]. intros _.
      split; [now rewrite length_map, range_length |].
      intros y Hy. change (List.map ?f ?l) with (f <$> l).
      rewrite list_lookup_fmap, range_nth by lia.
      cbn [fmap option_fmap option_map].
      replace (top i + Z.of_nat (Z.to_nat (y - top i)))%Z with y by lia.
      reflexivity.
    + split; [reflexivity | congruence].
  - intros Hts Hppd i Hdist. subst wallHeight. cbv beta.
    rewrite Hts, Hppd, Hdist.
    assert (Hwh : 255.999 < 64 * 256 / (64 + 0.0001) < 256) by (split; lra).
    split; [exact Hwh |].
    unfold Rabs. destruct (Rcase_abs _); lra.
Qed.

End Columns.

(** ** Rings of wall *)

Lemma floor_between (a b : Z) (x : R) :
  (a <= Zfloor x <= b)%Z <-> (IZR a <= x < IZR b + 1)%R.
Proof.
  pose proof (Zfloor_bound x) as [Hlo Hhi]. split.
  - intros [Ha Hb]. apply IZR_le in Ha, Hb. lra.
  - intros [Ha Hb]. split; [now apply Zfloor_lub |].
    assert (Hlt : (Zfloor x < b + 1)%Z)
      by (apply lt_IZR; rewrite plus_IZR; lra).
    lia.
Qed.

Section Ring.
Variables (rd : Renderer.t) (w h : nat) (m : Map.t) (rayAngle viewAngle : R).
Hypothesis Hring : is_ring m w h.
Hypothesis Hts : (1 <= Renderer.TILE_SIZE rd)%R.

Local Open Scope R_scope.
Local Abbreviation ts := (Renderer.TILE_SIZE rd).
Local Abbreviation player := (centre rd w h viewAngle).
Local Abbreviation sx n := (sample_x rd player (cos rayAngle) n).
Local Abbreviation sy n := (sample_y rd player (sin rayAngle) n).
Local Abbreviation tile_at n :=
  (sample_tile rd player m (sin rayAngle) (cos rayAngle) n).
Local Abbreviation inner_at n :=
  (inner_cell w h (Zfloor (sx n)) (Zfloor (sy n)) = true).

Lemma ring_wide : 3 <= INR w /\ 3 <= INR h.
Proof.
  destruct Hring as (Hw & Hh & _).
  apply le_INR in Hw, Hh. simpl in Hw, Hh. lra.
Qed.

(** One step moves the sample by less than a tile in each axis. *)
Lemma step_short (t : R) : -1 <= t <= 1 -> -1 <= t / ts <= 1.
Proof.
  intros Ht. assert (Hpos : 0 < ts) by lra.
  split.
  - apply Rmult_le_reg_r with ts; [exact Hpos |].
    unfold Rdiv. rewrite Rmult_assoc, Rinv_l by lra. lra.
  - apply Rmult_le_reg_r with ts; [exact Hpos |].
    unfold Rdiv. rewrite Rmult_assoc, Rinv_l by lra. lra.
Qed.

Lemma sample_x_centre n : sx n = INR w / 2 + cos rayAngle / ts * INR n.
Proof. unfold sample_x, centre. simpl. field. lra. Qed.

Lemma sample_y_centre n : sy n = INR h / 2 + sin rayAngle / ts * INR n.
Proof. unfold sample_y, centre. simpl. field. lra. Qed.

Lemma inner_real n :
  inner_at n <->
  (1 <= sx n < INR w - 1) /\ (1 <= sy n < INR h - 1).
Proof.
  unfold inner_cell. rewrite !andb_true_iff, !Z.leb_le.
  pose proof (floor_between 1 (Z.of_nat w - 2) (sx n)) as Hx.
  pose proof (floor_between 1 (Z.of_nat h - 2) (sy n)) as Hy.
  rewrite minus_IZR, <- INR_IZR_INZ in Hx, Hy.
  split.
  - intros [[[Hx1 Hx2] Hy1] Hy2].
    destruct Hx as [Hx _], Hy as [Hy _].
    specialize (Hx (conj Hx1 Hx2)). specialize (Hy (conj Hy1 Hy2)). lra.
  - intros [Hxr Hyr].
    destruct Hx as [_ Hx], Hy as [_ Hy].
    destruct Hx as [Hx1 Hx2]; [lra |]. destruct Hy as [Hy1 Hy2]; [lra |]. auto.
Qed.

Lemma bounds_real n :
  (0 <= sx n < INR w) /\ (0 <= sy n < INR h) ->
  in_bounds w h (Zfloor (sx n)) (Zfloor (sy n)).
Proof.
  intros [Hx Hy]. unfold in_bounds.
  pose proof (floor_between 0 (Z.of_nat w - 1) (sx n)) as [_ Hfx].
  pose proof (floor_between 0 (Z.of_nat h - 1) (sy n)) as [_ Hfy].
  rewrite minus_IZR, <- INR_IZR_INZ in Hfx, Hfy.
  destruct Hfx as [Hx1 Hx2]; [lra |]. destruct Hfy as [Hy1 Hy2]; [lra |]. lia.
Qed.

Lemma viewer_inside : inner_at 0%nat.
Proof.
  apply inner_real. rewrite sample_x_centre, sample_y_centre. simpl INR.
  pose proof ring_wide. lra.
Qed.

Lemma inner_then_in_bounds n :
  inner_at n -> in_bounds w h (Zfloor (sx (S n))) (Zfloor (sy (S n))).
Proof.
  intros Hin. apply inner_real in Hin. apply bounds_real.
  rewrite sample_x_centre, sample_y_centre in *. rewrite S_INR.
  pose proof (step_short (cos rayAngle) (COS_bound rayAngle)).
  pose proof (step_short (sin rayAngle) (SIN_bound rayAngle)).
  lra.
Qed.

Lemma ring_solid x y :
  in_bounds w h x y ->
  Renderer.solid (Map.getTile m x y) = negb (inner_cell w h x y).
Proof.
  intros Hb. destruct Hring as (_ & _ & Hcells).
  destruct (Hcells x y Hb) as (tile & -> & Hsolid). exact Hsolid.
Qed.

(** As long as no sample was solid, the samples are inside the ring. *)
Lemma open_run_inside n :
  (forall j, (1 <= j <= n)%nat -> Renderer.solid (tile_at j) = false) ->
  inner_at n.
Proof.
  induction n as [| n IH]; intros Hopen; [apply viewer_inside |].
  assert (Hin : inner_at n) by (apply IH; intros j Hj; apply Hopen; lia).
  apply inner_then_in_bounds in Hin.
  specialize (Hopen (S n)). unfold sample_tile in Hopen.
  rewrite (ring_solid _ _ Hin) in Hopen.
  apply negb_false_iff. apply Hopen. lia.
Qed.

(** A sample inside the ring is within the inner half-diagonal. *)
Lemma inside_near n :
  inner_at n ->
  (INR n)² <= ts² * ((INR w / 2 - 1)² + (INR h / 2 - 1)²).
Proof.
  intros Hin. apply inner_real in Hin.
  rewrite sample_x_centre, sample_y_centre in Hin.
  set (u := cos rayAngle / ts * INR n) in *.
  set (v := sin rayAngle / ts * INR n) in *.
  assert (Hu : u² <= (INR w / 2 - 1)²).
  { unfold Rsqr.
    assert (0 <= (INR w / 2 - 1 - u) * (INR w / 2 - 1 + u))
      by (apply Rmult_le_pos; lra).
    lra. }
  assert (Hv : v² <= (INR h / 2 - 1)²).
  { unfold Rsqr.
    assert (0 <= (INR h / 2 - 1 - v) * (INR h / 2 - 1 + v))
      by (apply Rmult_le_pos; lra).
    lra. }
  assert (Hn : (INR n)² = ts² * (u² + v²)).
  { subst u v. unfold Rsqr.
    pose proof (sin2_cos2 rayAngle) as Hunit. unfold Rsqr in Hunit.
    transitivity ((sin rayAngle * sin rayAngle + cos rayAngle * cos rayAngle)
                  * (INR n * INR n)); [rewrite Hunit; lra |].
    field. lra. }
  rewrite Hn. apply Rmult_le_compat_l; [apply Rle_0_sqr | lra].
Qed.

Lemma ring_reach_sqr :
  0 <= ring_reach rd w h /\
  (ring_reach rd w h)² = ts² * ((INR w / 2 - 1)² + (INR h / 2 - 1)²).
Proof.
  unfold ring_reach.
  assert (Hsum : 0 <= (INR w / 2 - 1)² + (INR h / 2 - 1)²)
    by (apply Rplus_le_le_0_compat; apply Rle_0_sqr).
  split.
  - apply Rmult_le_pos; [lra | apply sqrt_pos].
  - rewrite Rsqr_mult, Rsqr_sqrt by exact Hsum. reflexivity.
Qed.

Lemma ring_reach_below_radius : ring_reach rd w h < ring_radius rd w h.
Proof.
  unfold ring_reach, ring_radius. pose proof ring_wide as [Hw Hh].
  apply Rmult_lt_compat_l; [lra |].
  apply sqrt_lt_1_alt. split.
  - apply Rplus_le_le_0_compat; apply Rle_0_sqr.
  - unfold Rsqr. nra.
Qed.

Lemma inside_within_reach n : inner_at n -> INR n <= ring_reach rd w h.
Proof.
  intros Hin. apply inside_near in Hin.
  destruct ring_reach_sqr as [Hpos Hsqr].
  apply Rsqr_incr_0; [| apply pos_INR | exact Hpos].
  now rewrite Hsqr.
Qed.

(** Every ray from the centre hits the ring, at most one step beyond the
    farthest point of the floor, when the march can go that far. *)
Lemma ring_hit :
  ring_reach rd w h < Renderer.MAX_RAY_DISTANCE rd ->
  exists tile,
    RayHit.tile (Renderer.castRay rd rayAngle player m) = Some tile /\
    Tile.isSolid tile = true /\
    RayHit.distance (Renderer.castRay rd rayAngle player m)
      <= ring_reach rd w h + 1.
Proof.
  intros Hfar. rewrite castRay_scans.
  destruct (first_solid rd player m (sin rayAngle) (cos rayAngle)
              (Renderer.march_fuel rd) 0) as [n |] eqn:Hscan.
  - apply scan_Some in Hscan as (Hn & Hhit & Hbefore).
    apply solid_Some in Hhit as (tile & Htile & Hsolid).
    exists tile. cbn [RayHit.tile RayHit.distance].
    split; [exact Htile |]. split; [exact Hsolid |].
    destruct n as [| n]; [lia |].
    assert (Hin : inner_at n)
      by (apply open_run_inside; intros j Hj; apply Hbefore; lia).
    apply inside_within_reach in Hin. rewrite S_INR. lra.
  - exfalso.
    assert (Hin : inner_at (Renderer.march_fuel rd)).
    { apply open_run_inside. intros j Hj.
      apply (scan_None _ _ _ _ _ _ _ Hscan). lia. }
    apply inside_within_reach in Hin.
    pose proof (fuel_reaches_max rd). lra.
Qed.

End Ring.

Lemma createTile_wall_defs (code : Z) :
  Tile.isSolid (Map.createTile wall_defs code) = (code =? 1)%Z.
Proof.
  unfold wall_defs. destruct (Z.eqb_spec code 1) as [-> | Hne].
  - now rewrite createTile_registered.
  - rewrite createTile_other by congruence.
    unfold Map.createTile. now rewrite lookup_empty.
Qed.

Lemma index_tabulate {A : Type} (f : nat -> A) (n : nat) (i : Z) :
  (0 <= i < Z.of_nat n)%Z ->
  Js.index (List.map f (seq 0 n)) i = Some (f (Z.to_nat i)).
Proof.
  intros Hi. unfold Js.index.
  destruct (Z.ltb_spec i 0) as [Hneg | _]; [lia |].
  change (List.map f (seq 0 n)) with (f <$> seq 0 n).
  rewrite list_lookup_fmap, lookup_seq_lt by lia. reflexivity.
Qed.

Lemma ring_map_is_ring (w h : nat) :
  (3 <= w)%nat -> (3 <= h)%nat -> is_ring (ring_map w h) w h.
Proof.
  intros Hw Hh. split; [exact Hw |]. split; [exact Hh |].
  intros x y [Hx Hy]. unfold ring_map, ring_data.
  rewrite getTile_new, index_tabulate by exact Hy.
  rewrite index_tabulate by exact Hx. simpl.
  eexists. split; [reflexivity |].
  rewrite createTile_wall_defs, !Z2Nat.id by lia.
  destruct (inner_cell w h x y); reflexivity.
Qed.

Lemma enclosed4_is_ring : is_ring enclosed4 4 4.
Proof.
  change enclosed4 with (ring_map 4 4). apply ring_map_is_ring; lia.
Qed.

Lemma sqrt_2_below_3_halves :
  (sqrt ((INR 4 / 2 - 1)² + (INR 4 / 2 - 1)²) <= 3 / 2)%R.
Proof.
  rewrite <- (sqrt_square (3 / 2)) by lra. apply sqrt_le_1_alt.
  unfold Rsqr. simpl. lra.
Qed.

Lemma ten_rays_reach : (ring_reach ten_rays 4 4 <= 96)%R.
Proof.
  unfold ring_reach. pose proof sqrt_2_below_3_halves as Hsqrt.
  cbn [ten_rays Renderer.new Renderer.TILE_SIZE Renderer.tileSize default]. lra.
Qed.

Lemma ten_rays_reach_the_ring :
  (ring_reach ten_rays 4 4 < Renderer.MAX_RAY_DISTANCE ten_rays)%R.
Proof.
  pose proof ten_rays_reach.
  cbn [ten_rays Renderer.new Renderer.MAX_RAY_DISTANCE Renderer.maxRayDistance
       default]. lra.
Qed.

(** C5, as stated, for the renderer of the demo in a ring forty tiles wide:
    the ray cast along angle 0 from the centre reports no tile, the wall
    being 1216 units away and the march 1000 units long. *)
Lemma wide_ring_ray_reports_no_hit :
  is_ring (ring_map 40 40) 40 40 /\
  RayHit.tile
    (Renderer.castRay demo_renderer 0 (centre demo_renderer 40 40 0)
       (ring_map 40 40)) = None.
Proof.
  assert (Hring : is_ring (ring_map 40 40) 40 40)
    by (apply ring_map_is_ring; lia).
  split; [exact Hring |].
  apply castRay_miss. intros j Hj. rewrite demo_fuel in Hj.
  assert (Hts : (1 <= Renderer.TILE_SIZE demo_renderer)%R) by (cbn; lra).
  assert (Hin : inner_cell 40 40
            (Zfloor (sample_x demo_renderer (centre demo_renderer 40 40 0) (cos 0) j))
            (Zfloor (sample_y demo_renderer (centre demo_renderer 40 40 0) (sin 0) j))
          = true).
  { apply (inner_real demo_renderer 40 40 0 0).
    rewrite sample_x_centre, sample_y_centre by exact Hts.
    rewrite cos_0, sin_0.
    assert (Hj1 : (1 <= INR j)%R) by (apply (le_INR 1); lia).
    assert (Hj2 : (INR j <= 1000)%R).
    { replace 1000%R with (INR 1000) by (rewrite INR_IZR_INZ; reflexivity).
      apply le_INR. lia. }
    replace (INR 40) with 40%R by (rewrite INR_IZR_INZ; reflexivity).
    cbn [demo_renderer Renderer.new Renderer.TILE_SIZE Renderer.tileSize
         Renderer.no_options default].
    lra. }
  unfold sample_tile. rewrite (ring_solid 40 40 (ring_map 40 40) Hring).
  - now rewrite Hin.
  - unfold inner_cell in Hin. unfold in_bounds.
    rewrite !andb_true_iff, !Z.leb_le in Hin. lia.
Qed.

(** C5, amended.  In a grid that is a closed ring of solid tiles around
    open floor, with tiles at least one step wide and the viewer at the
    centre, a ray cast at any angle reports a solid tile, at most one step
    beyond the farthest point of the floor and so at a distance below the
    half-diagonal of the ring (in world units) plus one step, provided
    [MAX_RAY_DISTANCE] exceeds the distance to that farthest point.  In
    particular, in the four by four grid with a solid border, with ten
    rays, the default field of view and the viewer at the centre
    (128, 128) facing angle 0, each of the ten rays reports a tile, at a
    distance below two tiles plus one step. *)
Theorem ring_rays_hit :
  (forall (rd : Renderer.t) (w h : nat) (m : Map.t) (rayAngle viewAngle : R),
     is_ring m w h ->
     (1 <= Renderer.TILE_SIZE rd)%R ->
     (ring_reach rd w h < Renderer.MAX_RAY_DISTANCE rd)%R ->
     exists tile,
       RayHit.tile (Renderer.castRay rd rayAngle (centre rd w h viewAngle) m)
         = Some tile /\
       Tile.isSolid tile = true /\
       (RayHit.distance (Renderer.castRay rd rayAngle (centre rd w h viewAngle) m)
        <= ring_reach rd w h + 1)%R /\
       (RayHit.distance (Renderer.castRay rd rayAngle (centre rd w h viewAngle) m)
        < ring_radius rd w h + 1)%R) /\
  (is_ring enclosed4 4 4 /\
   Renderer.FOV ten_rays = (PI / 3)%R /\
   Renderer.NUM_RAYS ten_rays = 10%Z /\
   Player.x (centre ten_rays 4 4 0) = 128%R /\
   Player.y (centre ten_rays 4 4 0) = 128%R /\
   Player.angle (centre ten_rays 4 4 0) = 0%R /\
   length (Renderer.rays ten_rays (centre ten_rays 4 4 0) enclosed4) = 10%nat /\
   Forall
     (fun ray => exists tile,
        RayHit.tile ray = Some tile /\ Tile.isSolid tile = true /\
        (RayHit.distance ray < 2 * Renderer.TILE_SIZE ten_rays + 1)%R)
     (Renderer.rays ten_rays (centre ten_rays 4 4 0) enclosed4)).
Proof.
  split.
  - intros rd w h m rayAngle viewAngle Hring Hts Hfar.
    destruct (ring_hit rd w h m rayAngle viewAngle Hring Hts Hfar)
      as (tile & Htile & Hsolid & Hdist).
    exists tile. split; [exact Htile |]. split; [exact Hsolid |].
    split; [exact Hdist |].
    pose proof (ring_reach_below_radius rd w h m Hring Hts). lra.
  - split; [exact enclosed4_is_ring |].
    split; [reflexivity |]. split; [reflexivity |].
    split; [cbn; lra |]. split; [cbn; lra |]. split; [reflexivity |].
    split; [now rewrite rays_length |].
    unfold Renderer.rays. apply Forall_map, Forall_forall.
    intros i _.
    assert (Hts : (1 <= Renderer.TILE_SIZE ten_rays)%R) by (cbn; lra).
    destruct (ring_hit ten_rays 4 4 enclosed4
                (Renderer.rayAngle ten_rays (centre ten_rays 4 4 0) i) 0
                enclosed4_is_ring Hts ten_rays_reach_the_ring)
      as (tile & Htile & Hsolid & Hdist).
    exists tile. split; [exact Htile |]. split; [exact Hsolid |].
    pose proof ten_rays_reach.
    assert (Hsize : Renderer.TILE_SIZE ten_rays = 64%R) by reflexivity.
    rewrite Hsize. lra.
Qed.

(** ** Worked examples *)

Example isSolid_enclosed4 :
  Map.isSolid enclosed4 1 1 = false /\ Map.isSolid enclosed4 0 1 = true /\
  Map.isSolid enclosed4 4 1 = true /\ Map.isSolid enclosed4 1 (-1) = true.
Proof. repeat split; reflexivity. Qed.

Example getTile_enclosed4_wall :
  Map.getTile enclosed4 3 2 = Some (TileDefinition.as_tile wall).
Proof. reflexivity. Qed.

(** Column 5 is right of the two by two texture and row -3 above it: the
    texel read is the top right one, green. *)
Example getTextureColor_tex2 :
  TextureManager.getTextureColor brick_textures "wall" 5 (-3)
    = Rgb (Some 0%Z) (Some 255%Z) (Some 0%Z) /\
  TextureManager.getTextureColor brick_textures "brick" 0 0 = Hex_ffffff.
Proof. split; reflexivity. Qed.

Lemma ten_rays_fuel : Renderer.march_fuel ten_rays = 1000%nat.
Proof. apply fuel_of_natural. rewrite INR_IZR_INZ. reflexivity. Qed.

(** The ray cast due east from the centre of the four by four map: the
    samples stay in cell (2, 2) for 63 turns and enter the wall cell (3, 2)
    at turn 64. *)
Example castRay_due_east :
  Renderer.castRay ten_rays 0 (centre ten_rays 4 4 0) enclosed4
  = RayHit.mk 64 3 2 (Some (TileDefinition.as_tile wall)).
Proof.
  assert (Hts : (1 <= Renderer.TILE_SIZE ten_rays)%R) by (cbn; lra).
  assert (Hx : forall n : nat,
            sample_x ten_rays (centre ten_rays 4 4 0) (cos 0) n
            = (2 + INR n / 64)%R).
  { intros n. rewrite sample_x_centre by exact Hts. rewrite cos_0.
    replace (INR 4) with 4%R by (rewrite INR_IZR_INZ; reflexivity).
    cbn [ten_rays Renderer.new Renderer.TILE_SIZE Renderer.tileSize default].
    lra. }
  assert (Hy : forall n : nat,
            sample_y ten_rays (centre ten_rays 4 4 0) (sin 0) n = 2%R).
  { intros n. rewrite sample_y_centre by exact Hts. rewrite sin_0.
    replace (INR 4) with 4%R by (rewrite INR_IZR_INZ; reflexivity).
    cbn [ten_rays Renderer.new Renderer.TILE_SIZE Renderer.tileSize default].
    lra. }
  assert (H64 : INR 64 = 64%R) by (rewrite INR_IZR_INZ; reflexivity).
  rewrite (castRay_hit ten_rays 0 (centre ten_rays 4 4 0) enclosed4 64).
  - rewrite Hx, Hy, H64. unfold sample_tile. rewrite Hx, Hy, H64.
    replace (2 + 64 / 64)%R with 3%R by lra.
    rewrite !ZfloorZ. reflexivity.
  - rewrite ten_rays_fuel. lia.
  - unfold sample_tile. rewrite Hx, Hy, H64.
    replace (2 + 64 / 64)%R with 3%R by lra.
    rewrite !ZfloorZ. reflexivity.
  - intros j Hj. unfold sample_tile. rewrite Hx, Hy.
    assert (Hj1 : (0 <= INR j)%R) by apply pos_INR.
    assert (Hj2 : (INR j <= 63)%R).
    { replace 63%R with (INR 63) by (rewrite INR_IZR_INZ; reflexivity).
      apply le_INR. lia. }
    rewrite (Zfloor_eq 2 (2 + INR j / 64)) by lra.
    rewrite ZfloorZ. reflexivity.
Qed.

(** ** The theorems at concrete inputs *)

Lemma enclosed4_rectangular : Map.rectangular enclosed4 4 4.
Proof. split; [reflexivity |]. repeat constructor. Qed.

Lemma isSolid_closes_the_map_witness :
  Map.rectangular enclosed4 4 4 /\ ~ in_bounds 4 4 (-1) 2 /\
  Map.isSolid enclosed4 (-1) 2 = true.
Proof.
  assert (Hout : ~ in_bounds 4 4 (-1) 2) by (unfold in_bounds; lia).
  split; [exact enclosed4_rectangular |]. split; [exact Hout |].
  exact (proj1 (isSolid_closes_the_map enclosed4 4 4 (-1) 2
                  enclosed4_rectangular) Hout).
Defined.

Lemma createTile_by_definition_witness :
  wall_defs !! 1%Z = Some wall /\
  Tile.isSolid (Map.createTile wall_defs 1) = true /\
  Tile.texture (Map.createTile wall_defs 1) = Some "brick".
Proof.
  assert (Hwall : wall_defs !! 1%Z = Some wall) by apply lookup_insert_eq.
  split; [exact Hwall |].
  exact (proj2 (proj1 (createTile_by_definition wall_defs 1) wall Hwall)).
Defined.

Lemma tex2_wf : ImageData.wf tex2.
Proof.
  split; [simpl; lia |]. split; [simpl; lia |]. split; [reflexivity |].
  simpl. repeat constructor; lia.
Qed.

Lemma getTextureColor_clamps_witness :
  TextureManager.textureData brick_textures !! "wall" = Some tex2 /\
  ImageData.wf tex2 /\
  clamp_coord 5 (ImageData.width tex2) = 1%Z /\
  clamp_coord (-3) (ImageData.height tex2) = 0%Z.
Proof.
  assert (Hlook : TextureManager.textureData brick_textures !! "wall" = Some tex2)
    by apply lookup_singleton_eq.
  split; [exact Hlook |]. split; [exact tex2_wf |].
  destruct (proj2 (getTextureColor_clamps brick_textures "wall" 5 (-3)) tex2
              Hlook tex2_wf)
    as (_ & _ & _ & Hright & _ & Htop & _).
  split; [apply Hright; simpl; lia | apply Htop; lia].
Defined.

Lemma castRay_marches_witness :
  Renderer.MAX_RAY_DISTANCE demo_renderer = INR 1000 /\
  Renderer.march_fuel demo_renderer = 1000%nat.
Proof.
  assert (Hmax : Renderer.MAX_RAY_DISTANCE demo_renderer = INR 1000)
    by (rewrite INR_IZR_INZ; reflexivity).
  split; [exact Hmax |].
  destruct (castRay_marches demo_renderer 0 (Player.mk 32 32 0) open_cell)
    as (_ & _ & Hnatural & _).
  exact (Hnatural 1000%nat Hmax).
Defined.

Lemma empty_grid_never_hit_witness :
  Map.tiles empty_map = [] /\
  RayHit.tile (Renderer.castRay demo_renderer 0 (Player.mk 96 96 0) empty_map)
  = None.
Proof.
  split; [reflexivity |].
  exact (proj1 (proj2 (empty_grid_never_hit demo_renderer 0 (Player.mk 96 96 0)
                         empty_map eq_refl))).
Defined.

(** On the four by four map, with rays of at most ten steps, the ray due
    east from (96, 96) stays in the open cell (1, 1) for its whole march;
    the wall that lies 96 steps along it is never sampled. *)
Lemma short_rays_stay_open (n : nat) :
  (1 <= n)%nat -> (INR n - 1 < Renderer.MAX_RAY_DISTANCE short_rays)%R ->
  sample_tile short_rays (Player.mk 96 96 0) enclosed4 (sin 0) (cos 0) n = None \/
  exists tile,
    sample_tile short_rays (Player.mk 96 96 0) enclosed4 (sin 0) (cos 0) n
      = Some tile /\ Tile.isSolid tile = false.
Proof.
  intros Hn Hrun. right.
  assert (Hlo : (1 <= INR n)%R) by (apply (le_INR 1); exact Hn).
  assert (Hhi : (INR n < 11)%R) by (cbn in Hrun; lra).
  unfold sample_tile, sample_x, sample_y. rewrite cos_0, sin_0.
  cbn [short_rays with_max_distance Renderer.TILE_SIZE demo_renderer
       Renderer.new Renderer.tileSize Renderer.no_options default
       Player.x Player.y].
  rewrite (Zfloor_eq 1 ((96 + 1 * INR n) / 64)) by lra.
  rewrite (Zfloor_eq 1 ((96 + 0 * INR n) / 64)) by lra.
  eexists. split; reflexivity.
Qed.

Lemma short_rays_wall_ahead :
  Renderer.solid
    (sample_tile short_rays (Player.mk 96 96 0) enclosed4 (sin 0) (cos 0) 96)
  = true.
Proof.
  unfold sample_tile, sample_x, sample_y. rewrite cos_0, sin_0.
  replace (INR 96) with 96%R by (rewrite INR_IZR_INZ; reflexivity).
  cbn [short_rays with_max_distance Renderer.TILE_SIZE demo_renderer
       Renderer.new Renderer.tileSize Renderer.no_options default
       Player.x Player.y].
  rewrite (Zfloor_eq 3 ((96 + 1 * 96) / 64)) by lra.
  rewrite (Zfloor_eq 1 ((96 + 0 * 96) / 64)) by lra.
  reflexivity.
Qed.

Lemma castRay_hits_only_solid_tiles_witness :
  (forall n : nat, (1 <= n)%nat ->
     (INR n - 1 < Renderer.MAX_RAY_DISTANCE short_rays)%R ->
     sample_tile short_rays (Player.mk 96 96 0) enclosed4 (sin 0) (cos 0) n
       = None \/
     exists tile,
       sample_tile short_rays (Player.mk 96 96 0) enclosed4 (sin 0) (cos 0) n
         = Some tile /\ Tile.isSolid tile = false) /\
  Renderer.solid
    (sample_tile short_rays (Player.mk 96 96 0) enclosed4 (sin 0) (cos 0) 96)
  = true /\
  RayHit.tile (Renderer.castRay short_rays 0 (Player.mk 96 96 0) enclosed4)
  = None.
Proof.
  split; [exact short_rays_stay_open |].
  split; [exact short_rays_wall_ahead |].
  destruct (castRay_hits_only_solid_tiles short_rays 0 (Player.mk 96 96 0)
              enclosed4) as (_ & _ & Hruns & _).
  exact (proj1 (Hruns short_rays_stay_open)).
Defined.

Lemma ring_rays_hit_witness :
  is_ring enclosed4 4 4 /\
  (1 <= Renderer.TILE_SIZE ten_rays)%R /\
  (ring_reach ten_rays 4 4 < Renderer.MAX_RAY_DISTANCE ten_rays)%R /\
  exists tile,
    RayHit.tile (Renderer.castRay ten_rays (PI / 6) (centre ten_rays 4 4 0) enclosed4)
      = Some tile /\
    Tile.isSolid tile = true /\
    (RayHit.distance
       (Renderer.castRay ten_rays (PI / 6) (centre ten_rays 4 4 0) enclosed4)
     <= ring_reach ten_rays 4 4 + 1)%R /\
    (RayHit.distance
       (Renderer.castRay ten_rays (PI / 6) (centre ten_rays 4 4 0) enclosed4)
     < ring_radius ten_rays 4 4 + 1)%R.
Proof.
  assert (Hts : (1 <= Renderer.TILE_SIZE ten_rays)%R) by (cbn; lra).
  split; [exact enclosed4_is_ring |]. split; [exact Hts |].
  split; [exact ten_rays_reach_the_ring |].
  exact (proj1 ring_rays_hit ten_rays 4%nat 4%nat enclosed4 (PI / 6)%R 0%R
           enclosed4_is_ring Hts ten_rays_reach_the_ring).
Defined.


Lemma round_gap_half : round_gap 1.5 = 0.5%R.
Proof.
  unfold round_gap, Js.round. rewrite (Zfloor_eq 2) by lra.
  unfold Rabs. destruct (Rcase_abs _); lra.
Qed.

Lemma round_gap_tenth : round_gap 2.1 = 0.1%R.
Proof.
  unfold round_gap, Js.round. rewrite (Zfloor_eq 2) by lra.
  unfold Rabs. destruct (Rcase_abs _); lra.
Qed.

Lemma wall_face_tie_break_witness :
  (round_gap 2.1 < round_gap 1.5)%R /\
  Renderer.textureX demo_renderer 1.5 2.1
  = Zfloor (frac 1.5 * Renderer.TILE_SIZE demo_renderer).
Proof.
  assert (Hnear : (round_gap 2.1 < round_gap 1.5)%R)
    by (rewrite round_gap_half, round_gap_tenth; lra).
  split; [exact Hnear |].
  destruct (wall_face_tie_break demo_renderer 1.5 2.1)
    as (_ & _ & _ & Hy & _).
  exact (Hy Hnear).
Defined.

(** Column 96 of the demo's frame, seen from (128, 96) on the four by four
    map: its ray leaves due east and enters the wall cell (3, 1) at turn
    64. *)
Lemma column_96_due_east :
  Renderer.castRay demo_renderer
    (Player.angle (Player.mk 128 96 0) - Renderer.FOV demo_renderer / 2
     + (IZR 96 / IZR (Renderer.NUM_RAYS demo_renderer))
       * Renderer.FOV demo_renderer)%R
    (Player.mk 128 96 0) enclosed4
  = RayHit.mk 64 3 1.5 (Some (TileDefinition.as_tile wall)).
Proof.
  replace (Player.angle (Player.mk 128 96 0) - Renderer.FOV demo_renderer / 2
           + (IZR 96 / IZR (Renderer.NUM_RAYS demo_renderer))
             * Renderer.FOV demo_renderer)%R
    with 0%R by (cbn; lra).
  assert (Hx : forall n : nat,
            sample_x demo_renderer (Player.mk 128 96 0) (cos 0) n
            = (2 + INR n / 64)%R).
  { intros n. unfold sample_x. rewrite cos_0. cbn. lra. }
  assert (Hy : forall n : nat,
            sample_y demo_renderer (Player.mk 128 96 0) (sin 0) n = 1.5%R).
  { intros n. unfold sample_y. rewrite sin_0. cbn. lra. }
  assert (H64 : INR 64 = 64%R) by (rewrite INR_IZR_INZ; reflexivity).
  rewrite (castRay_hit demo_renderer 0 (Player.mk 128 96 0) enclosed4 64).
  - unfold sample_tile. rewrite Hx, Hy, H64.
    replace (2 + 64 / 64)%R with 3%R by lra.
    rewrite ZfloorZ. rewrite (Zfloor_eq 1 1.5) by lra. reflexivity.
  - rewrite demo_fuel. lia.
  - unfold sample_tile. rewrite Hx, Hy, H64.
    replace (2 + 64 / 64)%R with 3%R by lra.
    rewrite ZfloorZ. rewrite (Zfloor_eq 1 1.5) by lra. reflexivity.
  - intros j Hj. unfold sample_tile. rewrite Hx, Hy.
    assert (Hj1 : (0 <= INR j)%R) by apply pos_INR.
    assert (Hj2 : (INR j <= 63)%R).
    { replace 63%R with (INR 63) by (rewrite INR_IZR_INZ; reflexivity).
      apply le_INR. lia. }
    rewrite (Zfloor_eq 2 (2 + INR j / 64)) by lra.
    rewrite (Zfloor_eq 1 1.5) by lra. reflexivity.
Qed.

Lemma ray_fan_and_wall_height_witness :
  let ray :=
    Renderer.castRay demo_renderer
      (Player.angle (Player.mk 128 96 0) - Renderer.FOV demo_renderer / 2
       + (IZR 96 / IZR (Renderer.NUM_RAYS demo_renderer))
         * Renderer.FOV demo_renderer)%R
      (Player.mk 128 96 0) enclosed4 in
  Renderer.TILE_SIZE demo_renderer = 64%R /\
  Renderer.PROJECTION_PLANE_DISTANCE demo_renderer = 256%R /\
  RayHit.distance ray = 64%R /\
  (255.999
   < Renderer.TILE_SIZE demo_renderer
     * Renderer.PROJECTION_PLANE_DISTANCE demo_renderer
     / (RayHit.distance ray + 0.0001)
   < 256)%R /\
  exists (columns : list (list FillRect)) (pixels : list FillRect),
    Renderer.render demo_renderer (Player.mk 128 96 0) enclosed4
    = mkFillRect (Style_name (Map.getCeilingTexture enclosed4)) 0 0
        (IZR (Canvas.width (Renderer.canvas demo_renderer)))
        (IZR (Canvas.height (Renderer.canvas demo_renderer)) / 2)
      :: mkFillRect (Style_name (Map.getFloorTexture enclosed4)) 0
           (IZR (Canvas.height (Renderer.canvas demo_renderer)) / 2)
           (IZR (Canvas.width (Renderer.canvas demo_renderer)))
           (IZR (Canvas.height (Renderer.canvas demo_renderer)) / 2)
      :: concat columns /\
    columns !! 96%nat = Some pixels /\ length pixels = 255%nat.
Proof.
  intros ray.
  assert (Hts : Renderer.TILE_SIZE demo_renderer = 64%R) by reflexivity.
  assert (Hppd : Renderer.PROJECTION_PLANE_DISTANCE demo_renderer = 256%R)
    by (cbn; lra).
  assert (Hdist : RayHit.distance ray = 64%R)
    by (subst ray; now rewrite column_96_due_east).
  assert (Hhit : RayHit.tile ray <> None)
    by (subst ray; now rewrite column_96_due_east).
  split; [exact Hts |]. split; [exact Hppd |]. split; [exact Hdist |].
  destruct (ray_fan_and_wall_height demo_renderer (Player.mk 128 96 0) enclosed4)
    as [(columns & Hframe & _ & Hcolumns) Hheight].
  split; [exact (proj1 (Hheight Hts Hppd 96%Z Hdist)) |].
  destruct (Hcolumns 96%Z) as (pixels & Hnth & _ & Hpixels); [cbn; lia |].
  destruct (Hpixels Hhit) as [Hlength _].
  exists columns, pixels. split; [exact Hframe |]. split; [exact Hnth |].
  rewrite Hlength. fold ray. rewrite Hdist, Hts, Hppd.
  change (IZR (Canvas.height (Renderer.canvas demo_renderer))) with 108%R.
  rewrite (Zfloor_eq 181 ((108 + 64 * 256 / (64 + 0.0001)) / 2)) by (split; lra).
  rewrite (Zfloor_eq (-74) ((108 - 64 * 256 / (64 + 0.0001)) / 2)) by (split; lra).
  reflexivity.
Defined.

(** * Further properties *)

(** ** Building the map *)

Lemma isSolid_false_iff m x y :
  Map.isSolid m x y = false <->
  exists tile, Map.getTile m x y = Some tile /\ Tile.isSolid tile = false.
Proof.
  unfold Map.isSolid. destruct (Map.getTile m x y) as [tile |]; split.
  - intros Hs. exists tile. auto.
  - now intros (t' & [= <-] & Hs).
  - discriminate.
  - now intros (t' & [=] & _).
Qed.

Lemma new_rectangular defs tm mapData floor ceiling (w h : nat) :
  data_rectangular mapData w h ->
  Map.rectangular (Map.new defs tm mapData floor ceiling) w h.
Proof.
  intros [Hh Hrows]. unfold Map.rectangular, Map.new, Map.initializeTiles. simpl.
  split; [now rewrite length_map |].
  apply Forall_map. eapply Forall_impl; [exact Hrows |].
  intros row Hrow. simpl. now rewrite length_map.
Qed.

(** X1.  A map built from map data has the shape of the data, and a cell
    of it is not solid exactly when the data has a code there and that
    code is unregistered or registered with a definition that is not
    solid; everywhere else (outside the data, or on a code registered as
    solid) [isSolid] is true. *)
Theorem new_map_solidity (defs : gmap Z TileDefinition.t) (tm : TextureManager.t)
    (mapData : list (list Z)) (floor ceiling : string) (x y : Z) :
  let m := Map.new defs tm mapData floor ceiling in
  length (Map.tiles m) = length mapData /\
  (forall w h, data_rectangular mapData w h -> Map.rectangular m w h) /\
  (Map.isSolid m x y = false <->
   exists row code,
     Js.index mapData y = Some row /\ Js.index row x = Some code /\
     (defs !! code = None \/
      exists definition,
        defs !! code = Some definition /\
        TileDefinition.isSolid definition = false)).
Proof.
  intros m. split; [| split].
  - unfold m, Map.new, Map.initializeTiles. simpl. now rewrite length_map.
  - intros w h. apply new_rectangular.
  - rewrite isSolid_false_iff. unfold m. rewrite getTile_new. split.
    + intros (tile & Htile & Hsolid).
      destruct (Js.index mapData y) as [row |] eqn:Hrow; [| discriminate].
      destruct (Js.index row x) as [code |] eqn:Hcode; [| discriminate].
      simpl in Htile. injection Htile as <-.
      exists row, code. split; [reflexivity |]. split; [exact Hcode |].
      unfold Map.createTile in Hsolid.
      destruct (defs !! code) as [definition |]; [| now left].
      right. exists definition. auto.
    + intros (row & code & -> & Hcode & Hdef). rewrite Hcode. simpl.
      eexists. split; [reflexivity |]. unfold Map.createTile.
      destruct Hdef as [-> | (definition & -> & Hsolid)]; [reflexivity | exact Hsolid].
Qed.

(** X2.  Registering a definition replaces what was registered for the
    same type code and leaves the other codes alone, and registrations for
    different codes commute; so running the registrations of the level a
    second time, as its constructor does, changes neither the table nor the
    tiles already built. *)
Theorem registration_composes (defs : gmap Z TileDefinition.t)
    (t1 t2 : Z) (d1 d2 : TileDefinition.t) :
  Map.registerTileDefinition t1 d2 (Map.registerTileDefinition t1 d1 defs)
    = Map.registerTileDefinition t1 d2 defs /\
  (t1 <> t2 ->
   Map.registerTileDefinition t1 d1 (Map.registerTileDefinition t2 d2 defs)
     = Map.registerTileDefinition t2 d2 (Map.registerTileDefinition t1 d1 defs)) /\
  Level1.initializeTileDefinitions (Level1.initializeTileDefinitions defs)
    = Level1.initializeTileDefinitions defs /\
  (forall tm,
     Map.tileDefinitions (Level1.new tm) = Level1.initializeTileDefinitions ∅ /\
     Map.tiles (Level1.new tm)
       = Map.initializeTiles (Map.tileDefinitions (Level1.new tm)) Level1.mapData).
Proof.
  unfold Map.registerTileDefinition.
  split; [apply insert_insert_eq |].
  split; [intros Hne; now apply insert_insert_ne |].
  assert (Htwice : forall defs',
            Level1.initializeTileDefinitions (Level1.initializeTileDefinitions defs')
            = Level1.initializeTileDefinitions defs').
  { intros defs'. unfold Level1.initializeTileDefinitions,
      Map.registerTileDefinition.
    apply map_eq. intros code. rewrite !lookup_insert.
    repeat case_decide; reflexivity. }
  split; [apply Htwice |].
  intros tm. unfold Level1.new. simpl. rewrite Htwice. auto.
Qed.

(** ** Loading textures *)

Lemma getTextureColor_texel tm name img x y :
  TextureManager.textureData tm !! name = Some img ->
  TextureManager.getTextureColor tm name x y = texel img x y.
Proof.
  intros Himg. unfold TextureManager.getTextureColor, texel, ImageData.channel,
    clamp_coord.
  rewrite Himg. cbv zeta. now rewrite Z.add_0_r.
Qed.

(** X3.  Once an image is loaded under an id and a name, the name answers
    that id, and (when the scratch canvas gave a context) colour queries
    for the name read the texels of that image, clamped; without a context
    the id is recorded but colours stay what they were.  Other names keep
    their id and their colours, and a cache in which nothing is loaded
    answers no id and white. *)
Theorem onload_then_lookup (tc : TextureCache.t) (id : Z) (name : string)
    (img : ImageData.t) (ctx : bool) (x y : Z) :
  TextureCache.getTextureId (TextureCache.onload id name img ctx tc) name
    = Some id /\
  TextureCache.getTextureColor (TextureCache.onload id name img true tc) name x y
    = texel img x y /\
  TextureCache.getTextureColor (TextureCache.onload id name img false tc) name x y
    = TextureCache.getTextureColor tc name x y /\
  (forall name', name' <> name ->
     TextureCache.getTextureId (TextureCache.onload id name img ctx tc) name'
       = TextureCache.getTextureId tc name' /\
     TextureCache.getTextureColor (TextureCache.onload id name img ctx tc) name' x y
       = TextureCache.getTextureColor tc name' x y) /\
  TextureCache.getTextureId TextureCache.empty name = None /\
  TextureCache.getTextureColor TextureCache.empty name x y = Hex_ffffff.
Proof.
  unfold TextureCache.getTextureId, TextureCache.getTextureColor,
    TextureCache.manager, TextureCache.onload. simpl.
  split; [apply lookup_insert_eq |].
  split; [apply getTextureColor_texel; simpl; apply lookup_insert_eq |].
  split; [reflexivity |].
  split.
  - intros name' Hne. split; [now apply lookup_insert_ne |].
    unfold TextureManager.getTextureColor. simpl.
    destruct ctx; [| reflexivity]. now rewrite lookup_insert_ne.
  - split; [apply lookup_empty |].
    unfold TextureManager.getTextureColor. simpl. now rewrite lookup_empty.
Qed.

(** ** The player entity *)

Section PlayerEntityFacts.
Local Open Scope R_scope.
Implicit Types (p q : PlayerEntity.t) (e : PlayerEntity.Event).

Lemma canMoveTo_iff p newX newY :
  PlayerEntity.canMoveTo p newX newY = true <->
  exists m, PlayerEntity.map p = Some m /\
            Forall (open_at m) (PlayerEntity.corners newX newY).
Proof.
  unfold PlayerEntity.canMoveTo.
  destruct (PlayerEntity.map p) as [m |]; [| split; [discriminate |]].
  - unfold PlayerEntity.corners, PlayerEntity.TILE_SIZE. cbn [existsb fst snd].
    rewrite negb_true_iff, !orb_false_iff, !isSolid_false_iff. split.
    + intros (H1 & H2 & H3 & H4 & _). exists m. split; [reflexivity |].
      rewrite !Forall_cons, Forall_nil. unfold open_at. cbn [fst snd]. auto 10.
    + intros (m' & [= <-] & Hall).
      rewrite !Forall_cons in Hall. unfold open_at in Hall. cbn [fst snd] in Hall.
      destruct Hall as (H1 & H2 & H3 & H4 & _). auto 10.
  - now intros (m & [=] & _).
Qed.

(** What a move does: nothing, or a step to the target, which passed
    [canMoveTo]. *)
Lemma moveForward_cases p :
  let newX := PlayerEntity.x p + cos (PlayerEntity.angle p) * PlayerEntity.speed p in
  let newY := PlayerEntity.y p + sin (PlayerEntity.angle p) * PlayerEntity.speed p in
  PlayerEntity.moveForward p = p \/
  (PlayerEntity.canMoveTo p newX newY = true /\
   PlayerEntity.moveForward p = PlayerEntity.set_position p newX newY).
Proof.
  cbv zeta. unfold PlayerEntity.moveForward.
  destruct (PlayerEntity.canMoveTo p _ _); auto.
Qed.

Lemma moveBackward_cases p :
  let newX := PlayerEntity.x p - cos (PlayerEntity.angle p) * PlayerEntity.speed p in
  let newY := PlayerEntity.y p - sin (PlayerEntity.angle p) * PlayerEntity.speed p in
  PlayerEntity.moveBackward p = p \/
  (PlayerEntity.canMoveTo p newX newY = true /\
   PlayerEntity.moveBackward p = PlayerEntity.set_position p newX newY).
Proof.
  cbv zeta. unfold PlayerEntity.moveBackward.
  destruct (PlayerEntity.canMoveTo p _ _); auto.
Qed.

(** What one event does. *)
Lemma handle_cases p e :
  let q := PlayerEntity.handle p e in
  let ahead :=
    (PlayerEntity.x p + cos (PlayerEntity.angle p) * PlayerEntity.speed p,
     PlayerEntity.y p + sin (PlayerEntity.angle p) * PlayerEntity.speed p) in
  let behind :=
    (PlayerEntity.x p - cos (PlayerEntity.angle p) * PlayerEntity.speed p,
     PlayerEntity.y p - sin (PlayerEntity.angle p) * PlayerEntity.speed p) in
  q = p \/
  (exists angle, q = PlayerEntity.set_angle p angle) \/
  q = PlayerEntity.set_speed p (PlayerEntity.sprintSpeed p) \/
  q = PlayerEntity.set_speed p (PlayerEntity.baseSpeed p) \/
  (exists target, (target = ahead \/ target = behind) /\
     PlayerEntity.canMoveTo p (fst target) (snd target) = true /\
     q = PlayerEntity.set_position p (fst target) (snd target)).
Proof.
  cbv zeta.
  assert (Hforward := moveForward_cases p).
  assert (Hbackward := moveBackward_cases p). cbv zeta in Hforward, Hbackward.
  destruct e as [code | code | movementX locked]; cbn [PlayerEntity.handle].
  - unfold PlayerEntity.keydown.
    destruct (String.eqb code "KeyA" || String.eqb code "ArrowLeft");
      [right; left; eauto |].
    destruct (String.eqb code "KeyD" || String.eqb code "ArrowRight");
      [right; left; eauto |].
    destruct (String.eqb code "KeyW" || String.eqb code "ArrowUp").
    { destruct Hforward as [-> | [Hcan ->]]; [now left |].
      do 4 right. eexists (_, _). split; [left; reflexivity |]. now split. }
    destruct (String.eqb code "KeyS" || String.eqb code "ArrowDown").
    { destruct Hbackward as [-> | [Hcan ->]]; [now left |].
      do 4 right. eexists (_, _). split; [right; reflexivity |]. now split. }
    destruct (PlayerEntity.is_shift code); [right; right; now left | now left].
  - unfold PlayerEntity.keyup.
    destruct (PlayerEntity.is_shift code); [do 3 right; now left | now left].
  - unfold PlayerEntity.mousemove.
    destruct locked; [right; left; eauto | now left].
Qed.

(** X4.  [canMoveTo] answers false while no map is set; with a map it
    answers true exactly when each of the four corners at the collision
    margin around the target lies in a cell of the grid whose tile is not
    solid (a corner outside the grid blocks the move). *)
Theorem canMoveTo_needs_open_corners p (newX newY : R) :
  (PlayerEntity.map p = None -> PlayerEntity.canMoveTo p newX newY = false) /\
  (forall m, PlayerEntity.map p = Some m ->
     (PlayerEntity.canMoveTo p newX newY = true <->
      open_at m (newX - 3, newY - 3) /\ open_at m (newX + 3, newY - 3) /\
      open_at m (newX - 3, newY + 3) /\ open_at m (newX + 3, newY + 3))).
Proof.
  split.
  - intros Hmap. unfold PlayerEntity.canMoveTo. now rewrite Hmap.
  - intros m Hmap. rewrite canMoveTo_iff. unfold PlayerEntity.corners,
      PlayerEntity.COLLISION_MARGIN.
    split.
    + intros (m' & Hm' & Hall). rewrite Hmap in Hm'. injection Hm' as <-.
      rewrite !Forall_cons in Hall. tauto.
    + intros (H1 & H2 & H3 & H4). exists m. split; [exact Hmap |].
      rewrite !Forall_cons, Forall_nil. tauto.
Qed.

(** X5.  Whatever keys are pressed and released and however the mouse
    moves, a player that stands clear of the walls (its four corners are in
    open cells) still stands clear afterwards, and its map is the same: no
    sequence of events takes the player into a wall or out of the grid. *)
Theorem player_stays_clear (events : list PlayerEntity.Event) p :
  stands_clear p ->
  stands_clear (PlayerEntity.run events p) /\
  PlayerEntity.map (PlayerEntity.run events p) = PlayerEntity.map p.
Proof.
  unfold PlayerEntity.run. revert p.
  induction events as [| e events IH]; intros p Hclear; [now split |].
  cbn [fold_left].
  assert (Hstep : stands_clear (PlayerEntity.handle p e) /\
                  PlayerEntity.map (PlayerEntity.handle p e) = PlayerEntity.map p).
  { unfold stands_clear in *.
    destruct (handle_cases p e)
      as [-> | [[angle ->] | [-> | [-> | (target & _ & Hcan & ->)]]]];
      (split; [| reflexivity]);
      try exact Hclear; try exact Hcan. }
  destruct Hstep as [Hclear' Hmap].
  destruct (IH (PlayerEntity.handle p e) Hclear') as [Hclear'' Hmap'].
  split; [exact Hclear'' | congruence].
Qed.

(** X6.  A player that stands clear on a grid of [h] rows of [w] cells is
    inside the grid with its margin: its coordinates are at least 3 and
    below [64 * w - 3] and [64 * h - 3]. *)
Theorem clear_player_inside_grid p (m : Map.t) (w h : nat) :
  PlayerEntity.map p = Some m -> Map.rectangular m w h -> stands_clear p ->
  3 <= PlayerEntity.x p < 64 * INR w - 3 /\
  3 <= PlayerEntity.y p < 64 * INR h - 3.
Proof.
  intros Hmap Hrect Hclear.
  apply canMoveTo_iff in Hclear as (m' & Hm' & Hall).
  rewrite Hmap in Hm'. injection Hm' as <-.
  unfold PlayerEntity.corners, PlayerEntity.COLLISION_MARGIN in Hall.
  rewrite !Forall_cons in Hall.
  destruct Hall as (Hnw & _ & _ & Hse & _).
  assert (Hin : forall point, open_at m point ->
            0 <= fst point / 64 < INR w /\ 0 <= snd point / 64 < INR h).
  { intros point (tile & Htile & _).
    apply getTile_Some_in_grid in Htile as (row & Hrow & _ & Hy & Hx).
    rewrite (rectangular_row _ _ _ _ _ Hrect Hrow) in Hx.
    destruct Hrect as [Hh _]. rewrite Hh in Hy.
    pose proof (Zfloor_bound (fst point / 64)) as Hfx.
    pose proof (Zfloor_bound (snd point / 64)) as Hfy.
    destruct Hx as [Hx0 Hx1], Hy as [Hy0 Hy1].
    apply IZR_le in Hx0, Hy0.
    assert (Hx2 : (Zfloor (fst point / 64) + 1 <= Z.of_nat w)%Z) by lia.
    assert (Hy2 : (Zfloor (snd point / 64) + 1 <= Z.of_nat h)%Z) by lia.
    apply IZR_le in Hx2, Hy2. rewrite plus_IZR, <- INR_IZR_INZ in Hx2, Hy2.
    lra. }
  apply Hin in Hnw, Hse. cbn [fst snd] in Hnw, Hse. lra.
Qed.

(** X7.  One event changes at most one of the position, the angle and the
    speed of the player, and nothing else: it leaves the player as it is,
    or sets its angle, or sets its speed to the sprint speed or to the base
    speed, or moves it to the point one step of [speed] ahead of it or
    behind it along its viewing direction, and this only when [canMoveTo]
    accepted that point. *)
Theorem event_does_one_thing p e :
  let q := PlayerEntity.handle p e in
  let ahead :=
    (PlayerEntity.x p + cos (PlayerEntity.angle p) * PlayerEntity.speed p,
     PlayerEntity.y p + sin (PlayerEntity.angle p) * PlayerEntity.speed p) in
  let behind :=
    (PlayerEntity.x p - cos (PlayerEntity.angle p) * PlayerEntity.speed p,
     PlayerEntity.y p - sin (PlayerEntity.angle p) * PlayerEntity.speed p) in
  q = p \/
  (exists angle, q = PlayerEntity.set_angle p angle) \/
  q = PlayerEntity.set_speed p (PlayerEntity.sprintSpeed p) \/
  q = PlayerEntity.set_speed p (PlayerEntity.baseSpeed p) \/
  (exists target, (target = ahead \/ target = behind) /\
     PlayerEntity.canMoveTo p (fst target) (snd target) = true /\
     q = PlayerEntity.set_position p (fst target) (snd target)).
Proof. apply handle_cases. Qed.

(** X9.  A new player moves at 6.5 units a step whatever base speed its
    options give: the constructor reads the speed before it applies the
    options.  The base speed of the options takes effect when a Shift key
    is released, and the sprint speed while one is held; releasing any
    other key changes nothing. *)
Theorem constructor_speed (x y : R) (options : PlayerEntity.Options.t)
    (code : string) :
  PlayerEntity.speed (PlayerEntity.new x y options) = 6.5 /\
  PlayerEntity.baseSpeed (PlayerEntity.new x y options)
    = default 6.5 (PlayerEntity.Options.baseSpeed options) /\
  (PlayerEntity.is_shift code = true ->
   PlayerEntity.speed (PlayerEntity.keydown code (PlayerEntity.new x y options))
     = default 5 (PlayerEntity.Options.sprintSpeed options) /\
   PlayerEntity.speed
     (PlayerEntity.keyup code
        (PlayerEntity.keydown code (PlayerEntity.new x y options)))
     = default 6.5 (PlayerEntity.Options.baseSpeed options)) /\
  (PlayerEntity.is_shift code = false ->
   forall p, PlayerEntity.keyup code p = p).
Proof.
  split; [reflexivity |]. split; [reflexivity |]. split.
  - intros Hshift. unfold PlayerEntity.keyup, PlayerEntity.keydown.
    rewrite Hshift. unfold PlayerEntity.is_shift in Hshift.
    apply orb_true_iff in Hshift as [Hc | Hc]; apply String.eqb_eq in Hc;
      subst code; split; reflexivity.
  - intros Hshift p. unfold PlayerEntity.keyup. now rewrite Hshift.
Qed.

End PlayerEntityFacts.

(** ** The player with polled keys *)

Section PlayerPolledFacts.
Local Open Scope R_scope.
Implicit Types (p q : PlayerPolled.t).

Lemma checkCollision_false m point :
  PlayerPolled.checkCollision m point = false <-> open_at m point.
Proof.
  unfold PlayerPolled.checkCollision, PlayerPolled.TILE_SIZE, open_at.
  cbv zeta. apply isSolid_false_iff.
Qed.

(** X10.  With polled keys, [canMoveTo] answers false while no map is set;
    with a map it answers true exactly when the three probes ahead of the
    target (straight on and 45 degrees to either side, at the collision
    margin) lie in open cells of the grid and at least one of the two
    probes at the sides does. *)
Theorem polled_canMoveTo_probes p (newX newY : R) :
  (PlayerPolled.map p = None -> PlayerPolled.canMoveTo p newX newY = false) /\
  (forall m, PlayerPolled.map p = Some m ->
     (PlayerPolled.canMoveTo p newX newY = true <->
      Forall (open_at m) (PlayerPolled.frontPoints p newX newY) /\
      (open_at m (PlayerPolled.leftPoint p newX newY) \/
       open_at m (PlayerPolled.rightPoint p newX newY)))).
Proof.
  unfold PlayerPolled.canMoveTo. split; [now intros -> |].
  intros m ->. unfold PlayerPolled.frontPoints. cbn [existsb].
  rewrite !Forall_cons, Forall_nil, <- !checkCollision_false.
  destruct (PlayerPolled.checkCollision m _);
    [split; [discriminate | intros [(H & _) _]; discriminate] |].
  destruct (PlayerPolled.checkCollision m _);
    [split; [discriminate | intros [(_ & H & _) _]; discriminate] |].
  destruct (PlayerPolled.checkCollision m _);
    [split; [discriminate | intros [(_ & _ & H & _) _]; discriminate] |].
  cbn [orb].
  destruct (PlayerPolled.checkCollision m (PlayerPolled.leftPoint p newX newY)),
    (PlayerPolled.checkCollision m (PlayerPolled.rightPoint p newX newY));
    cbn [andb]; split; auto; try discriminate.
  intros [_ [H | H]]; discriminate.
Qed.

Lemma moveForward_fields p :
  PlayerPolled.pressedKeys (PlayerPolled.moveForward p) = PlayerPolled.pressedKeys p /\
  PlayerPolled.angle (PlayerPolled.moveForward p) = PlayerPolled.angle p /\
  PlayerPolled.speed (PlayerPolled.moveForward p) = PlayerPolled.speed p /\
  PlayerPolled.map (PlayerPolled.moveForward p) = PlayerPolled.map p.
Proof.
  unfold PlayerPolled.moveForward.
  destruct (PlayerPolled.canMoveTo p _ _); cbn; auto.
Qed.

Lemma moveBackward_fields p :
  PlayerPolled.pressedKeys (PlayerPolled.moveBackward p) = PlayerPolled.pressedKeys p /\
  PlayerPolled.angle (PlayerPolled.moveBackward p) = PlayerPolled.angle p /\
  PlayerPolled.speed (PlayerPolled.moveBackward p) = PlayerPolled.speed p /\
  PlayerPolled.map (PlayerPolled.moveBackward p) = PlayerPolled.map p.
Proof.
  unfold PlayerPolled.moveBackward.
  destruct (PlayerPolled.canMoveTo p _ _); cbn; auto.
Qed.

Lemma pressed_same_keys p q a b :
  PlayerPolled.pressedKeys p = PlayerPolled.pressedKeys q ->
  PlayerPolled.pressed p a b = PlayerPolled.pressed q a b.
Proof. intros Hkeys. unfold PlayerPolled.pressed. now rewrite Hkeys. Qed.

Lemma pressed_none p a b :
  PlayerPolled.pressedKeys p = ∅ -> PlayerPolled.pressed p a b = false.
Proof.
  intros Hkeys. unfold PlayerPolled.pressed. rewrite Hkeys.
  rewrite !bool_decide_eq_false_2 by set_solver. reflexivity.
Qed.

(** The timer callback, with its five tests read on the keys at its start. *)
Lemma tick_unfold p :
  PlayerPolled.tick p
  = let p1 := if PlayerPolled.pressed p "KeyW" "ArrowUp"
              then PlayerPolled.moveForward p else p in
    let p2 := if PlayerPolled.pressed p "KeyS" "ArrowDown"
              then PlayerPolled.moveBackward p1 else p1 in
    let p3 := if PlayerPolled.pressed p "KeyA" "ArrowLeft"
              then PlayerPolled.set_angle p2 (PlayerPolled.angle p - 0.1) else p2 in
    let p4 := if PlayerPolled.pressed p "KeyD" "ArrowRight"
              then PlayerPolled.set_angle p3 (PlayerPolled.angle p3 + 0.1) else p3 in
    if PlayerPolled.pressed p "ShiftLeft" "ShiftRight"
    then PlayerPolled.set_speed p4 (PlayerPolled.sprintSpeed p4) else p4.
Proof.
  unfold PlayerPolled.tick. cbv zeta.
  set (p1 := if PlayerPolled.pressed p "KeyW" "ArrowUp"
             then PlayerPolled.moveForward p else p).
  assert (H1 : PlayerPolled.pressedKeys p1 = PlayerPolled.pressedKeys p /\
               PlayerPolled.angle p1 = PlayerPolled.angle p).
  { subst p1. destruct (PlayerPolled.pressed p "KeyW" "ArrowUp"); [| auto].
    destruct (moveForward_fields p) as (? & ? & _). auto. }
  destruct H1 as [Hk1 Ha1].
  rewrite (pressed_same_keys p1 p) by exact Hk1.
  set (p2 := if PlayerPolled.pressed p "KeyS" "ArrowDown"
             then PlayerPolled.moveBackward p1 else p1).
  assert (H2 : PlayerPolled.pressedKeys p2 = PlayerPolled.pressedKeys p /\
               PlayerPolled.angle p2 = PlayerPolled.angle p).
  { subst p2. destruct (PlayerPolled.pressed p "KeyS" "ArrowDown"); [| auto].
    destruct (moveBackward_fields p1) as (? & ? & _). split; congruence. }
  destruct H2 as [Hk2 Ha2].
  rewrite (pressed_same_keys p2 p) by exact Hk2. rewrite Ha2.
  set (p3 := if PlayerPolled.pressed p "KeyA" "ArrowLeft"
             then PlayerPolled.set_angle p2 (PlayerPolled.angle p - 0.1) else p2).
  assert (Hk3 : PlayerPolled.pressedKeys p3 = PlayerPolled.pressedKeys p).
  { subst p3. destruct (PlayerPolled.pressed p "KeyA" "ArrowLeft"); exact Hk2. }
  rewrite (pressed_same_keys p3 p) by exact Hk3.
  set (p4 := if PlayerPolled.pressed p "KeyD" "ArrowRight"
             then PlayerPolled.set_angle p3 (PlayerPolled.angle p3 + 0.1) else p3).
  assert (Hk4 : PlayerPolled.pressedKeys p4 = PlayerPolled.pressedKeys p).
  { subst p4. destruct (PlayerPolled.pressed p "KeyD" "ArrowRight"); exact Hk3. }
  rewrite (pressed_same_keys p4 p) by exact Hk4. reflexivity.
Qed.

Lemma tick_keys p :
  PlayerPolled.pressedKeys (PlayerPolled.tick p) = PlayerPolled.pressedKeys p /\
  PlayerPolled.map (PlayerPolled.tick p) = PlayerPolled.map p.
Proof.
  rewrite tick_unfold. cbv zeta.
  destruct (moveForward_fields p) as (Hk1 & _ & _ & Hm1).
  destruct (PlayerPolled.pressed p "KeyW" "ArrowUp").
  - destruct (moveBackward_fields (PlayerPolled.moveForward p))
      as (Hk2 & _ & _ & Hm2).
    repeat match goal with
           | |- context [if ?b then _ else _] => destruct b
           end; cbn; split; congruence.
  - destruct (moveBackward_fields p) as (Hk2 & _ & _ & Hm2).
    repeat match goal with
           | |- context [if ?b then _ else _] => destruct b
           end; cbn; split; congruence.
Qed.

Lemma tick_angle p :
  PlayerPolled.angle (PlayerPolled.tick p)
  = PlayerPolled.angle p
    + (if PlayerPolled.pressed p "KeyA" "ArrowLeft" then - 0.1 else 0)
    + (if PlayerPolled.pressed p "KeyD" "ArrowRight" then 0.1 else 0).
Proof.
  rewrite tick_unfold. cbv zeta.
  destruct (moveForward_fields p) as (_ & Ha1 & _).
  destruct (PlayerPolled.pressed p "KeyW" "ArrowUp").
  - destruct (moveBackward_fields (PlayerPolled.moveForward p)) as (_ & Ha2 & _).
    repeat match goal with
           | |- context [if ?b then _ else _] => destruct b
           end; cbn; rewrite ?Ha2, ?Ha1; lra.
  - destruct (moveBackward_fields p) as (_ & Ha2 & _).
    repeat match goal with
           | |- context [if ?b then _ else _] => destruct b
           end; cbn; rewrite ?Ha2; lra.
Qed.


Lemma tick_position p :
  PlayerPolled.pressed p "KeyW" "ArrowUp" = false ->
  PlayerPolled.pressed p "KeyS" "ArrowDown" = false ->
  PlayerPolled.x (PlayerPolled.tick p) = PlayerPolled.x p /\
  PlayerPolled.y (PlayerPolled.tick p) = PlayerPolled.y p.
Proof.
  intros Hup Hdown. rewrite tick_unfold. cbv zeta. rewrite Hup, Hdown.
  repeat match goal with
         | |- context [if ?b then _ else _] => destruct b
         end; split; reflexivity.
Qed.

Lemma tick_speed p :
  PlayerPolled.speed (PlayerPolled.tick p)
  = if PlayerPolled.pressed p "ShiftLeft" "ShiftRight"
    then PlayerPolled.sprintSpeed p else PlayerPolled.speed p.
Proof.
  rewrite tick_unfold. cbv zeta.
  unfold PlayerPolled.moveForward, PlayerPolled.moveBackward.
  repeat match goal with
         | |- context [if ?b then _ else _] => destruct b
         end; reflexivity.
Qed.

Lemma turns_never_decrease (n : nat) (a : R) :
  a <= Nat.iter n (fun a => a + 0.1) a.
Proof.
  induction n as [| n IH]; [apply Rle_refl |].
  rewrite Nat.iter_succ. lra.
Qed.

Lemma ticks_turning (n : nat) : forall p,
  PlayerPolled.pressed p "KeyA" "ArrowLeft" = false ->
  PlayerPolled.pressed p "KeyD" "ArrowRight" = true ->
  PlayerPolled.angle (PlayerPolled.ticks n p)
  = Nat.iter n (fun a => a + 0.1) (PlayerPolled.angle p).
Proof.
  induction n as [| n IH]; intros p Hleft Hright; [reflexivity |].
  cbn [PlayerPolled.ticks]. destruct (tick_keys p) as [Hkeys _].
  rewrite IH.
  - rewrite tick_angle, Hleft, Hright, Nat.iter_succ_r.
    f_equal. lra.
  - now rewrite (pressed_same_keys _ p).
  - now rewrite (pressed_same_keys _ p).
Qed.

(** X12.  A run of the timer callback with no key pressed changes nothing;
    any run keeps the pressed keys and the map.  A run changes the
    position only while a move key is held, the angle only while a turn
    key is held, and the speed only while a Shift key is held, when it
    sets the sprint speed.  While a right key is held and no left key, [n]
    runs add a tenth of a radian [n] times over: the angle is never
    reduced modulo a full turn and never falls below the angle at the
    start. *)
Theorem polled_tick p :
  (PlayerPolled.pressedKeys p = ∅ -> PlayerPolled.tick p = p) /\
  PlayerPolled.pressedKeys (PlayerPolled.tick p) = PlayerPolled.pressedKeys p /\
  PlayerPolled.map (PlayerPolled.tick p) = PlayerPolled.map p /\
  (PlayerPolled.pressed p "KeyW" "ArrowUp" = false ->
   PlayerPolled.pressed p "KeyS" "ArrowDown" = false ->
   PlayerPolled.x (PlayerPolled.tick p) = PlayerPolled.x p /\
   PlayerPolled.y (PlayerPolled.tick p) = PlayerPolled.y p) /\
  (PlayerPolled.pressed p "KeyA" "ArrowLeft" = false ->
   PlayerPolled.pressed p "KeyD" "ArrowRight" = false ->
   PlayerPolled.angle (PlayerPolled.tick p) = PlayerPolled.angle p) /\
  (PlayerPolled.pressed p "ShiftLeft" "ShiftRight" = false ->
   PlayerPolled.speed (PlayerPolled.tick p) = PlayerPolled.speed p) /\
  (PlayerPolled.pressed p "ShiftLeft" "ShiftRight" = true ->
   PlayerPolled.speed (PlayerPolled.tick p) = PlayerPolled.sprintSpeed p) /\
  (PlayerPolled.pressed p "KeyA" "ArrowLeft" = false ->
   PlayerPolled.pressed p "KeyD" "ArrowRight" = true ->
   forall n : nat,
     PlayerPolled.angle (PlayerPolled.ticks n p)
     = Nat.iter n (fun a => a + 0.1) (PlayerPolled.angle p) /\
     PlayerPolled.angle p <= PlayerPolled.angle (PlayerPolled.ticks n p)).
Proof.
  split.
  { intros Hkeys. rewrite tick_unfold. cbv zeta.
    now rewrite !(pressed_none p) by exact Hkeys. }
  destruct (tick_keys p) as [Hkeys Hmap].
  split; [exact Hkeys |]. split; [exact Hmap |].
  split; [apply tick_position |]. split.
  { intros Hleft Hright. rewrite tick_angle, Hleft, Hright. lra. }
  split; [intros Hshift; now rewrite tick_speed, Hshift |].
  split; [intros Hshift; now rewrite tick_speed, Hshift |].
  intros Hleft Hright n. rewrite ticks_turning by assumption.
  split; [reflexivity | apply turns_never_decrease].
Qed.

End PlayerPolledFacts.

(** ** Wall colours *)

Section WallColour.
Local Open Scope R_scope.

Lemma fogFactor_range d : 0 <= Renderer.fogFactor d <= 1.
Proof.
  unfold Renderer.fogFactor. split; [apply Rmax_l |].
  apply Rmax_lub; [lra | apply Rmin_l].
Qed.

Lemma fogFactor_monotone d1 d2 :
  d1 <= d2 -> Renderer.fogFactor d1 <= Renderer.fogFactor d2.
Proof.
  intros Hd. unfold Renderer.fogFactor, Renderer.fogStart, Renderer.fogEnd.
  apply Rle_max_compat_l. apply Rle_min_compat_l. lra.
Qed.

Lemma round_monotone v1 v2 : v1 <= v2 -> (Js.round v1 <= Js.round v2)%Z.
Proof. intros Hv. unfold Js.round. apply Zfloor_le. lra. Qed.


Lemma blend_monotone c fog f1 f2 :
  f1 <= f2 ->
  (IZR c <= fog -> (Renderer.blend c fog f1 <= Renderer.blend c fog f2)%Z) /\
  (fog <= IZR c -> (Renderer.blend c fog f2 <= Renderer.blend c fog f1)%Z).
Proof.
  intros Hf. unfold Renderer.blend. split; intros Hc; apply round_monotone; nra.
Qed.




(** X14.  The fog factor lies in [[0, 1]] and never decreases with the
    distance, so a farther wall is never less fogged: each channel moves
    from the sampled byte towards the fog channel, never back. *)
Theorem farther_is_foggier (d1 d2 : R) (c : Z) (fog : R) :
  d1 <= d2 ->
  0 <= Renderer.fogFactor d1 <= Renderer.fogFactor d2 /\
  Renderer.fogFactor d2 <= 1 /\
  (IZR c <= fog ->
   (Renderer.blend c fog (Renderer.fogFactor d1)
    <= Renderer.blend c fog (Renderer.fogFactor d2))%Z) /\
  (fog <= IZR c ->
   (Renderer.blend c fog (Renderer.fogFactor d2)
    <= Renderer.blend c fog (Renderer.fogFactor d1))%Z).
Proof.
  intros Hd. pose proof (fogFactor_range d1). pose proof (fogFactor_range d2).
  pose proof (fogFactor_monotone d1 d2 Hd) as Hmono.
  destruct (blend_monotone c fog _ _ Hmono) as [Hup Hdown].
  repeat split; auto; lra.
Qed.

(** X15.  A tile whose texture is absent or the empty string is white at
    every distance: no fog is applied to it.  A tile with a texture whose
    name has no decoded image starts from white and is fogged like any
    other, so it is [rgb(255,255,255)] up to distance 300; the default
    empty tile, whose texture is the string ["empty"], is of this kind. *)
Theorem wall_colour_fallbacks (rd : Renderer.t) (tile : Tile.t)
    (textureX textureY : Z) (map : Map.t) (distance : R) :
  Renderer.getWallColor rd None textureX textureY map distance = Hex_ffffff /\
  (Js.truthy_string (Tile.texture tile) = false ->
   Renderer.getWallColor rd (Some tile) textureX textureY map distance
     = Hex_ffffff) /\
  (Js.truthy_string (Tile.texture tile) = true ->
   TextureManager.textureData (Map.textureManager map) !! Tile.name tile = None ->
   Renderer.getWallColor rd (Some tile) textureX textureY map distance
     = Rgb (Some (Renderer.blend 255 (Renderer.r (Renderer.DEFAULT_FOG_COLOR rd))
                    (Renderer.fogFactor distance)))
           (Some (Renderer.blend 255 (Renderer.g (Renderer.DEFAULT_FOG_COLOR rd))
                    (Renderer.fogFactor distance)))
           (Some (Renderer.blend 255 (Renderer.b (Renderer.DEFAULT_FOG_COLOR rd))
                    (Renderer.fogFactor distance))) /\
   (distance <= 300 ->
    Renderer.getWallColor rd (Some tile) textureX textureY map distance
      = Rgb (Some 255%Z) (Some 255%Z) (Some 255%Z))) /\
  Js.truthy_string (Tile.texture Map.emptyTile) = true.
Proof.
  split; [reflexivity |]. split.
  { intros Htex. unfold Renderer.getWallColor. now rewrite Htex. }
  split; [| reflexivity].
  intros Htex Hnone.
  assert (Hcol : Renderer.getWallColor rd (Some tile) textureX textureY map distance
     = Rgb (Some (Renderer.blend 255 (Renderer.r (Renderer.DEFAULT_FOG_COLOR rd))
                    (Renderer.fogFactor distance)))
           (Some (Renderer.blend 255 (Renderer.g (Renderer.DEFAULT_FOG_COLOR rd))
                    (Renderer.fogFactor distance)))
           (Some (Renderer.blend 255 (Renderer.b (Renderer.DEFAULT_FOG_COLOR rd))
                    (Renderer.fogFactor distance)))).
  { unfold Renderer.getWallColor. rewrite Htex. simpl negb. cbv iota.
    unfold Map.getTextureColor, TextureManager.getTextureColor.
    rewrite Hnone. reflexivity. }
  split; [exact Hcol |].
  intros Hnear. rewrite Hcol, (fogFactor_near _ Hnear), !blend_clear. reflexivity.
Qed.

End WallColour.

(** ** More on castRay *)

Section CastRayMore.
Local Open Scope R_scope.

Lemma some_turn rd : 0 < Renderer.MAX_RAY_DISTANCE rd <-> (1 <= Renderer.march_fuel rd)%nat.
Proof.
  pose proof (guard_counts rd 0) as Hguard. simpl in Hguard.
  split; intros H; [apply Hguard in H; lia | apply Hguard; lia].
Qed.

(** X18.  With a maximum distance of zero or less the loop does not run:
    whatever the map, the angle and the player, the answer is distance 0,
    hit point (0, 0) in grid coordinates and no tile. *)
Theorem no_march_without_range (rd : Renderer.t) (rayAngle : R)
    (player : Player.t) (map : Map.t) :
  Renderer.MAX_RAY_DISTANCE rd <= 0 ->
  Renderer.castRay rd rayAngle player map = RayHit.mk 0 0 0 None.
Proof.
  intros Hmax.
  assert (Hfuel : Renderer.march_fuel rd = 0%nat).
  { destruct (Renderer.march_fuel rd) as [| k] eqn:Hk; [reflexivity |].
    assert (H1 : (1 <= Renderer.march_fuel rd)%nat) by lia.
    apply some_turn in H1. lra. }
  rewrite castRay_scans, Hfuel. reflexivity.
Qed.

Lemma first_solid_with_max rd M p m s c fuel : forall k,
  first_solid (with_max_distance rd M) p m s c fuel k
  = first_solid rd p m s c fuel k.
Proof.
  induction fuel as [| fuel IH]; intros k; [reflexivity |]. simpl.
  rewrite IH. reflexivity.
Qed.

Lemma fuel_monotone rd M :
  Renderer.MAX_RAY_DISTANCE rd <= M ->
  (Renderer.march_fuel rd <= Renderer.march_fuel (with_max_distance rd M))%nat.
Proof.
  intros HM. apply fuel_is_least.
  pose proof (fuel_reaches_max (with_max_distance rd M)) as Hreach.
  cbn [with_max_distance Renderer.MAX_RAY_DISTANCE] in Hreach. lra.
Qed.

(** X19.  Raising the maximum ray distance keeps every hit: a ray that
    reports a tile reports the same tile, point and distance with any
    larger maximum; and the reported distance of any ray can only grow. *)
Theorem raising_max_keeps_hits (rd : Renderer.t) (M : R) (rayAngle : R)
    (player : Player.t) (map : Map.t) :
  Renderer.MAX_RAY_DISTANCE rd <= M ->
  (RayHit.tile (Renderer.castRay rd rayAngle player map) <> None ->
   Renderer.castRay (with_max_distance rd M) rayAngle player map
   = Renderer.castRay rd rayAngle player map) /\
  RayHit.distance (Renderer.castRay rd rayAngle player map)
  <= RayHit.distance (Renderer.castRay (with_max_distance rd M) rayAngle player map).
Proof.
  intros HM. pose proof (fuel_monotone rd M HM) as Hfuel.
  rewrite !castRay_scans, first_solid_with_max.
  set (K := Renderer.march_fuel rd) in *.
  set (K' := Renderer.march_fuel (with_max_distance rd M)) in *.
  destruct (first_solid rd player map (sin rayAngle) (cos rayAngle) K 0)
    as [n |] eqn:Hscan.
  - apply scan_Some in Hscan as (Hn & Hhit & Hbefore).
    rewrite (scan_finds rd player map _ _ K' 0%nat n); [| lia | exact Hhit | exact Hbefore].
    cbn [RayHit.distance]. split; [reflexivity | lra].
  - pose proof (scan_None _ _ _ _ _ _ _ Hscan) as Hopen.
    split.
    { destruct K; cbn [RayHit.tile]; congruence. }
    assert (HK : RayHit.distance
                   match K with
                   | O => RayHit.mk 0 0 0 None
                   | S _ => RayHit.mk (INR K) (sample_x rd player (cos rayAngle) K)
                              (sample_y rd player (sin rayAngle) K) None
                   end = INR K) by (destruct K; reflexivity).
    rewrite HK.
    destruct (first_solid rd player map (sin rayAngle) (cos rayAngle) K' 0)
      as [n |] eqn:Hscan'.
    + apply scan_Some in Hscan' as (Hn & Hhit & _).
      cbn [RayHit.distance]. apply le_INR.
      destruct (Nat.le_gt_cases K n) as [Hle | Hgt]; [exact Hle |].
      rewrite Hopen in Hhit by lia. discriminate.
    + destruct K' as [| k'] eqn:HK'; cbn [RayHit.distance].
      * assert (K = 0%nat) as -> by lia. simpl. lra.
      * apply le_INR. lia.
Qed.

End CastRayMore.

(** ** More on the frame *)

Section FrameMore.
Local Open Scope R_scope.

(** X20.  A frame in which no ray reports a tile consists of the ceiling
    fill over the top half of the canvas followed by the floor fill over
    the bottom half, and nothing else; this is the frame of every map with
    no row, for which no ray ever hits. *)
Theorem frame_without_walls (rd : Renderer.t) (player : Player.t) (map : Map.t) :
  let w := IZR (Canvas.width (Renderer.canvas rd)) in
  let h := IZR (Canvas.height (Renderer.canvas rd)) in
  let fills :=
    [ mkFillRect (Style_name (Map.ceilingTexture map)) 0 0 w (h / 2);
      mkFillRect (Style_name (Map.floorTexture map)) 0 (h / 2) w (h / 2) ] in
  ((forall i, (0 <= i < Renderer.NUM_RAYS rd)%Z ->
      RayHit.tile
        (Renderer.castRay rd (Renderer.rayAngle rd player i) player map) = None) ->
   Renderer.render rd player map = fills) /\
  (Map.tiles map = [] -> Renderer.render rd player map = fills).
Proof.
  intros w h fills.
  assert (Hmiss : (forall i, (0 <= i < Renderer.NUM_RAYS rd)%Z ->
      RayHit.tile
        (Renderer.castRay rd (Renderer.rayAngle rd player i) player map) = None) ->
   Renderer.render rd player map = fills).
  { intros Hnone. unfold Renderer.render, fills. do 2 f_equal.
    assert (Hcols : forall l, (forall i, In i l -> (0 <= i < Renderer.NUM_RAYS rd)%Z) ->
              flat_map (Renderer.render_column rd player map) l = []).
    { induction l as [| i l IH]; intros Hl; [reflexivity |]. simpl.
      rewrite render_column_no_hit by (apply Hnone, Hl; now left).
      apply IH. intros j Hj. apply Hl. now right. }
    apply Hcols. intros i Hi. apply range_In in Hi. lia. }
  split; [exact Hmiss |].
  intros Hempty. apply Hmiss. intros i _.
  apply castRay_miss. intros j _. unfold sample_tile.
  now rewrite getTile_no_rows.
Qed.

(** X21.  The wall slab of a column is centred on the middle of the canvas
    and as tall as the wall height, to the pixel: [drawStart + drawEnd] is
    the canvas height or one less, [drawEnd - drawStart] is within one of
    the wall height, and a column with a hit draws exactly
    [drawEnd - drawStart] pixels (none when that is not positive). *)
Theorem slab_is_centred (rd : Renderer.t) (player : Player.t) (map : Map.t)
    (wallHeight : R) (i : Z) :
  let H := Canvas.height (Renderer.canvas rd) in
  let drawStart := Renderer.drawStart rd wallHeight in
  let drawEnd := Renderer.drawEnd rd wallHeight in
  (H - 1 <= drawStart + drawEnd <= H)%Z /\
  wallHeight - 1 < IZR (drawEnd - drawStart) < wallHeight + 1 /\
  (0 <= wallHeight -> (drawStart <= drawEnd)%Z) /\
  (RayHit.tile (Renderer.castRay rd (Renderer.rayAngle rd player i) player map)
     <> None ->
   length (Renderer.render_column rd player map i)
   = Z.to_nat
       (Renderer.drawEnd rd
          (Renderer.wallHeight rd
             (RayHit.distance
                (Renderer.castRay rd (Renderer.rayAngle rd player i) player map)))
        - Renderer.drawStart rd
            (Renderer.wallHeight rd
               (RayHit.distance
                  (Renderer.castRay rd (Renderer.rayAngle rd player i) player map))))).
Proof.
  intros H drawStart drawEnd.
  pose proof (Zfloor_bound ((IZR H - wallHeight) / 2)) as Hs.
  pose proof (Zfloor_bound ((IZR H + wallHeight) / 2)) as He.
  change (Zfloor ((IZR H - wallHeight) / 2)) with drawStart in Hs.
  change (Zfloor ((IZR H + wallHeight) / 2)) with drawEnd in He.
  clearbody drawStart drawEnd.
  assert (Hsum : IZR H - 2 < IZR (drawStart + drawEnd) <= IZR H)
    by (rewrite plus_IZR; lra).
  assert (Hdiff : wallHeight - 1 < IZR (drawEnd - drawStart) < wallHeight + 1)
    by (rewrite minus_IZR; lra).
  split.
  { destruct Hsum as [Hlo Hhi]. apply le_IZR in Hhi.
    assert (Hlo' : (H - 2 < drawStart + drawEnd)%Z)
      by (apply lt_IZR; rewrite minus_IZR; exact Hlo).
    lia. }
  split; [exact Hdiff |]. split.
  { intros Hpos.
    assert (Hlt : (-1 < drawEnd - drawStart)%Z) by (apply lt_IZR; lra).
    lia. }
  intros Hhit. unfold Renderer.render_column.
  destruct (RayHit.tile _) as [tile |]; [| contradiction].
  now rewrite length_map, range_length.
Qed.

(** X22.  A ray that reports a tile reports a distance of at least one
    step, so (for a positive tile size and projection distance) the wall
    height of a hit is positive and below their product; and of two hits
    the nearer has the taller wall. *)
Theorem nearer_walls_are_taller (rd : Renderer.t) (rayAngle : R)
    (player : Player.t) (map : Map.t) :
  0 < Renderer.TILE_SIZE rd * Renderer.PROJECTION_PLANE_DISTANCE rd ->
  (RayHit.tile (Renderer.castRay rd rayAngle player map) <> None ->
   0 < Renderer.wallHeight rd
         (RayHit.distance (Renderer.castRay rd rayAngle player map))
     < Renderer.TILE_SIZE rd * Renderer.PROJECTION_PLANE_DISTANCE rd) /\
  (forall d1 d2, 0 <= d1 <= d2 ->
     0 < Renderer.wallHeight rd d2 <= Renderer.wallHeight rd d1).
Proof.
  intros Hscale.
  assert (Hpos : forall d, 0 <= d -> 0 < Renderer.wallHeight rd d).
  { intros d Hd. unfold Renderer.wallHeight. apply Rdiv_lt_0_compat; lra. }
  split.
  - intros Hhit.
    assert (Hone : 1 <= RayHit.distance (Renderer.castRay rd rayAngle player map)).
    { revert Hhit. rewrite castRay_scans.
      destruct (first_solid _ _ _ _ _ _ _) as [n |] eqn:Hscan.
      - intros _. apply scan_Some in Hscan as (Hn & _).
        cbn [RayHit.distance]. apply (le_INR 1). lia.
      - destruct (Renderer.march_fuel rd); cbn [RayHit.tile]; congruence. }
    split; [apply Hpos; lra |].
    unfold Renderer.wallHeight.
    set (d := RayHit.distance (Renderer.castRay rd rayAngle player map)) in *.
    apply Rmult_lt_reg_r with (d + 0.0001); [lra |].
    unfold Rdiv. rewrite Rmult_assoc, Rinv_l by lra. nra.
  - intros d1 d2 [H1 H2]. split; [apply Hpos; lra |].
    unfold Renderer.wallHeight, Rdiv.
    apply Rmult_le_compat_l; [lra |].
    apply Rinv_le_contravar; lra.
Qed.

(** X23.  With a positive number of rays and a positive field of view,
    the fan starts at [angle - FOV / 2], the ray angles increase from each
    column to the next, and every one of them stays below
    [angle + FOV / 2]: the right edge of the field of view is never
    cast. *)
Theorem ray_fan_extent (rd : Renderer.t) (player : Player.t) :
  (0 < Renderer.NUM_RAYS rd)%Z -> 0 < Renderer.FOV rd ->
  Renderer.rayAngle rd player 0 = Player.angle player - Renderer.FOV rd / 2 /\
  (forall i j : Z, (0 <= i < j)%Z -> (j < Renderer.NUM_RAYS rd)%Z ->
     Renderer.rayAngle rd player i < Renderer.rayAngle rd player j) /\
  (forall i : Z, (0 <= i < Renderer.NUM_RAYS rd)%Z ->
     Player.angle player - Renderer.FOV rd / 2 <= Renderer.rayAngle rd player i
     < Player.angle player + Renderer.FOV rd / 2).
Proof.
  intros HN Hfov. unfold Renderer.rayAngle.
  assert (HNr : 0 < IZR (Renderer.NUM_RAYS rd)) by (apply (IZR_lt 0); exact HN).
  set (N := IZR (Renderer.NUM_RAYS rd)) in *.
  set (fov := Renderer.FOV rd) in *.
  assert (Hstep : 0 < fov / N).
  { unfold Rdiv. apply Rmult_lt_0_compat; [lra |].
    apply Rinv_0_lt_compat. lra. }
  assert (Heq : forall i : Z, IZR i / N * fov = IZR i * (fov / N))
    by (intros i; field; lra).
  assert (Hfull : fov = N * (fov / N)) by (field; lra).
  split; [unfold Rdiv; rewrite Rmult_0_l; lra |].
  split.
  - intros i j [_ Hij] _. rewrite !Heq.
    assert (IZR i * (fov / N) < IZR j * (fov / N))
      by (apply Rmult_lt_compat_r; [exact Hstep | apply IZR_lt; exact Hij]).
    lra.
  - intros i [Hi0 HiN]. rewrite Heq.
    assert (Hi0r : 0 <= IZR i) by (apply (IZR_le 0); exact Hi0).
    assert (HiNr : IZR i < N) by (apply IZR_lt; exact HiN).
    assert (0 <= IZR i * (fov / N)) by (apply Rmult_le_pos; lra).
    assert (IZR i * (fov / N) < N * (fov / N))
      by (apply Rmult_lt_compat_r; lra).
    lra.
Qed.

(** X24.  For a positive tile size and wall height, the texture row
    computed for any pixel row of the slab is below the tile size; it can
    fall below 0 only for the top row of the slab, by at most
    [TILE_SIZE / wallHeight] and a rounding step (not below -1 when the
    wall is at least a tile tall), where sampling clamps it to row 0. *)
Theorem texture_row_range (rd : Renderer.t) (wallHeight : R) (y : Z) :
  0 < Renderer.TILE_SIZE rd -> 0 < wallHeight ->
  (Renderer.drawStart rd wallHeight <= y < Renderer.drawEnd rd wallHeight)%Z ->
  IZR (Renderer.textureY rd wallHeight y) < Renderer.TILE_SIZE rd /\
  - (Renderer.TILE_SIZE rd / wallHeight) - 1 < IZR (Renderer.textureY rd wallHeight y) /\
  (Renderer.TILE_SIZE rd <= wallHeight -> (-1 <= Renderer.textureY rd wallHeight y)%Z) /\
  ((Renderer.drawStart rd wallHeight < y)%Z ->
   (0 <= Renderer.textureY rd wallHeight y)%Z).
Proof.
  intros Hts Hwh [Hlo Hhi].
  unfold Renderer.drawStart in Hlo. unfold Renderer.drawEnd in Hhi.
  set (H := IZR (Canvas.height (Renderer.canvas rd))) in *.
  pose proof (Zfloor_bound ((H - wallHeight) / 2)) as Hs.
  pose proof (Zfloor_bound ((H + wallHeight) / 2)) as He.
  assert (Hy1 : IZR (Zfloor ((H - wallHeight) / 2)) <= IZR y) by (apply IZR_le; exact Hlo).
  assert (Hy2 : IZR y <= IZR (Zfloor ((H + wallHeight) / 2)) - 1).
  { rewrite <- minus_IZR. apply IZR_le. lia. }
  unfold Renderer.textureY. fold H.
  set (d := IZR y - H / 2 + wallHeight / 2).
  assert (Hd : -1 < d <= wallHeight - 1) by (subst d; lra).
  set (q := Renderer.TILE_SIZE rd / wallHeight).
  assert (Hq : 0 < q) by (apply Rdiv_lt_0_compat; lra).
  assert (Hv : d * Renderer.TILE_SIZE rd / wallHeight = d * q)
    by (subst q; field; lra).
  assert (Hqts : wallHeight * q = Renderer.TILE_SIZE rd) by (subst q; field; lra).
  rewrite Hv. pose proof (Zfloor_bound (d * q)) as Hf.
  split; [nra |]. split; [nra |]. split.
  - intros Htall. apply Zfloor_lub.
    assert (Hq1 : q <= 1) by nra.
    change (IZR (-1)) with (-1).
    destruct (Rle_or_lt 0 d) as [Hd0 | Hd0].
    + apply Rle_trans with 0; [lra | apply Rmult_le_pos; lra].
    + assert (0 <= (- d) * (1 - q)) by (apply Rmult_le_pos; lra). lra.
  - intros Hbelow. unfold Renderer.drawStart in Hbelow. fold H in Hbelow.
    assert (Hy3 : IZR (Zfloor ((H - wallHeight) / 2)) + 1 <= IZR y).
    { rewrite <- plus_IZR. apply IZR_le. lia. }
    assert (Hd0 : 0 <= d) by (subst d; lra).
    apply (Zfloor_lub 0). apply Rmult_le_pos; lra.
Qed.

End FrameMore.

(** ** The minimap *)

Section MiniMapFacts.
Local Open Scope R_scope.

Lemma getTile_nat (m : Map.t) (x y : nat) :
  Map.getTile m (Z.of_nat x) (Z.of_nat y)
  = match Map.tiles m !! y with
    | None => None
    | Some row => row !! x
    end.
Proof.
  unfold Map.getTile, Js.index.
  destruct (Z.ltb_spec (Z.of_nat y) 0) as [Hneg | _]; [lia |].
  rewrite Nat2Z.id. destruct (Map.tiles m !! y) as [row |]; [| reflexivity].
  destruct (Z.ltb_spec (Z.of_nat x) 0) as [Hneg | _]; [lia |].
  now rewrite Nat2Z.id.
Qed.

Lemma nth_row {A : Type} (rows : list (list A)) (y : nat) (row : list A) :
  rows !! y = Some row -> nth y rows [] = row.
Proof.
  revert y. induction rows as [| r rows IH]; intros [| y] Hrow;
    try discriminate; simpl in *; [congruence | now apply IH].
Qed.

Lemma rows_rects_length {A B : Type} (rows : list (list A)) (g : nat -> nat -> B) :
  length
    (flat_map (fun y => List.map (g y) (seq 0 (length (nth y rows []))))
       (seq 0 (length rows)))
  = length (concat rows).
Proof.
  induction rows as [| row rows IH] using rev_ind; [reflexivity |].
  rewrite length_app, Nat.add_1_r, seq_S, flat_map_app, length_app. simpl.
  rewrite app_nil_r, length_map, length_seq, concat_app, length_app. simpl.
  rewrite app_nil_r, app_nth2, Nat.sub_diag by lia. simpl. f_equal.
  rewrite <- IH. rewrite !flat_map_concat_map. do 2 f_equal.
  apply map_ext_in. intros y Hy. apply in_seq in Hy.
  rewrite app_nth1 by lia. reflexivity.
Qed.

(** X25.  The minimap paints one square per cell of the grid and none
    elsewhere: the square of the cell at column [x], row [y] has its corner
    at [margin + x * tileSize], [margin + y * tileSize] and side
    [tileSize]; it is in the wall colour exactly when [isSolid] holds at
    the cell, else in the floor colour.  The squares come first, then the
    dot of the player and the line of its direction. *)
Theorem minimap_paints_the_grid (mm : MiniMap.t) (map : Map.t) (player : Player.t) :
  (forall f, In f (MiniMap.tile_rects mm map) <->
     exists (x y : nat) tile,
       Map.getTile map (Z.of_nat x) (Z.of_nat y) = Some tile /\
       f = mkFillRect
             (Style_name (if Map.isSolid map (Z.of_nat x) (Z.of_nat y)
                          then MiniMap.wallColor mm else MiniMap.floorColor mm))
             (MiniMap.margin mm + INR x * MiniMap.tileSize mm)
             (MiniMap.margin mm + INR y * MiniMap.tileSize mm)
             (MiniMap.tileSize mm) (MiniMap.tileSize mm)) /\
  length (MiniMap.tile_rects mm map) = length (concat (Map.tiles map)) /\
  MiniMap.render mm map player
  = List.map Fill_rect (MiniMap.tile_rects mm map)
    ++ [MiniMap.player_dot mm player; MiniMap.direction_line mm player].
Proof.
  split; [| split; [apply rows_rects_length | reflexivity]].
  assert (Hrect : forall (x y : nat) tile,
            Map.getTile map (Z.of_nat x) (Z.of_nat y) = Some tile ->
            MiniMap.tile_rect mm map x y
            = mkFillRect
                (Style_name (if Map.isSolid map (Z.of_nat x) (Z.of_nat y)
                             then MiniMap.wallColor mm else MiniMap.floorColor mm))
                (MiniMap.margin mm + INR x * MiniMap.tileSize mm)
                (MiniMap.margin mm + INR y * MiniMap.tileSize mm)
                (MiniMap.tileSize mm) (MiniMap.tileSize mm)).
  { intros x y tile Htile. unfold MiniMap.tile_rect, Map.isSolid.
    now rewrite Htile. }
  intros f. unfold MiniMap.tile_rects. rewrite in_flat_map. split.
  - intros (y & Hy & Hf). apply in_map_iff in Hf as (x & <- & Hx).
    apply in_seq in Hy, Hx.
    destruct (lookup_lt_is_Some_2 (Map.tiles map) y) as [row Hrow]; [lia |].
    rewrite (nth_row _ _ _ Hrow) in Hx.
    destruct (lookup_lt_is_Some_2 row x) as [tile Htile]; [lia |].
    assert (Hget : Map.getTile map (Z.of_nat x) (Z.of_nat y) = Some tile)
      by (now rewrite getTile_nat, Hrow).
    exists x, y, tile. split; [exact Hget | exact (Hrect x y tile Hget)].
  - intros (x & y & tile & Hget & ->).
    pose proof Hget as Hget'. rewrite getTile_nat in Hget'.
    destruct (Map.tiles map !! y) as [row |] eqn:Hrow; [| discriminate].
    exists y. split.
    + apply in_seq. apply lookup_lt_Some in Hrow. lia.
    + apply in_map_iff. exists x. split; [exact (Hrect x y tile Hget) |].
      apply in_seq. rewrite (nth_row _ _ _ Hrow).
      apply lookup_lt_Some in Hget'. lia.
Qed.

(** X26.  The dot of the player is centred where the direction line
    starts; the line ends where the dot of a player standing
    [directionLength] units ahead along the viewing direction would be
    centred; and for a player inside a grid [w] cells wide (64 units a
    cell) the centre of the dot lies within the painted squares. *)
Theorem minimap_marker (mm : MiniMap.t) (player : Player.t) :
  let ahead :=
    Player.mk
      (Player.x player + cos (Player.angle player) * MiniMap.directionLength mm)
      (Player.y player + sin (Player.angle player) * MiniMap.directionLength mm)
      (Player.angle player) in
  exists cx cy x1 y1,
    MiniMap.player_dot mm player
      = Fill_arc (MiniMap.playerColor mm) cx cy (MiniMap.tileSize mm / 2) 0 (2 * PI) /\
    MiniMap.direction_line mm player
      = Stroke_line (MiniMap.directionColor mm) cx cy x1 y1 /\
    MiniMap.player_dot mm ahead
      = Fill_arc (MiniMap.playerColor mm) x1 y1 (MiniMap.tileSize mm / 2) 0 (2 * PI) /\
    (forall w : nat, 0 <= MiniMap.tileSize mm ->
       0 <= Player.x player <= 64 * INR w ->
       MiniMap.margin mm <= cx <= MiniMap.margin mm + INR w * MiniMap.tileSize mm).
Proof.
  unfold MiniMap.player_dot, MiniMap.direction_line.
  eexists _, _, _, _. split; [reflexivity |]. split; [reflexivity |].
  split; [reflexivity |].
  intros w Hts [Hx0 Hxw].
  set (ts := MiniMap.tileSize mm) in *.
  assert (H1 : 0 <= Player.x player / 64 * ts)
    by (apply Rmult_le_pos; lra).
  assert (H2 : Player.x player / 64 * ts <= INR w * ts)
    by (apply Rmult_le_compat_r; lra).
  lra.
Qed.

End MiniMapFacts.

(** ** The frame loop *)

Section GameLoopFacts.
Local Open Scope R_scope.

Lemma gap_positive : 0 < 1000 / GameLoop.FPS.
Proof. unfold GameLoop.FPS. lra. Qed.

(** What holds of the loop state between calls. *)
Lemma gameLoop_keeps st now :
  let ok st :=
    GameLoop.spaced (1000 / GameLoop.FPS) (GameLoop.rendered st) /\
    Forall (fun t => 1000 / GameLoop.FPS < t) (GameLoop.rendered st) /\
    GameLoop.lastFrame st = hd 0 (GameLoop.rendered st) in
  ok st -> ok (GameLoop.gameLoop st now).
Proof.
  intros ok (Hspaced & Hlate & Hlast). unfold GameLoop.gameLoop.
  destruct (Js.gtb _ _) eqn:Hgo; [| now repeat split].
  apply gtb_true in Hgo. pose proof gap_positive as Hgap.
  unfold ok. cbn [GameLoop.rendered GameLoop.lastFrame hd].
  destruct (GameLoop.rendered st) as [| t rest] eqn:Hrendered.
  - simpl in Hlast. rewrite Hlast in Hgo.
    split; [simpl; auto |]. split; [| reflexivity].
    apply Forall_cons. split; [lra | apply Forall_nil; exact I].
  - simpl in Hlast. rewrite Hlast in Hgo.
    split; [split; [exact Hgo | exact Hspaced] |]. split; [| reflexivity].
    apply Forall_cons. split; [| exact Hlate].
    apply Forall_cons in Hlate as [Ht _]. lra.
Qed.

Lemma run_rendered_from nows : forall st,
  (forall t, In t (GameLoop.rendered (GameLoop.run nows st)) ->
     In t nows \/ In t (GameLoop.rendered st)) /\
  (length (GameLoop.rendered (GameLoop.run nows st))
   <= length nows + length (GameLoop.rendered st))%nat.
Proof.
  unfold GameLoop.run.
  induction nows as [| now nows IH]; intros st; [simpl; auto |].
  cbn [fold_left]. destruct (IH (GameLoop.gameLoop st now)) as [Hin Hlen].
  assert (Hstep : GameLoop.rendered (GameLoop.gameLoop st now) = GameLoop.rendered st \/
                  GameLoop.rendered (GameLoop.gameLoop st now)
                  = now :: GameLoop.rendered st).
  { unfold GameLoop.gameLoop. destruct (Js.gtb _ _); auto. }
  split.
  - intros t Ht. destruct (Hin t Ht) as [Hnows | Hst]; [left; now right |].
    destruct Hstep as [Heq | Heq]; rewrite Heq in Hst; [now right |].
    destruct Hst as [<- | Hst]; [left; now left | now right].
  - destruct Hstep as [Heq | Heq]; rewrite Heq in Hlen; simpl in *; lia.
Qed.

(** X27.  Whatever the times at which the browser calls [gameLoop], two
    frames rendered in a row are more than 1000 / 30 ms apart, no frame is
    rendered before that much time has passed since time 0, frames are
    rendered only at call times and at most one per call; a call renders
    exactly when more than 1000 / 30 ms have passed since the last render,
    and a call that does not render changes nothing (the frame is
    dropped, the time is not carried over). *)
Theorem frames_are_spaced (nows : list R) (st : GameLoop.t) (now : R) :
  let final := GameLoop.run nows GameLoop.init in
  GameLoop.spaced (1000 / GameLoop.FPS) (GameLoop.rendered final) /\
  Forall (fun t => 1000 / GameLoop.FPS < t) (GameLoop.rendered final) /\
  (forall t, In t (GameLoop.rendered final) -> In t nows) /\
  (length (GameLoop.rendered final) <= length nows)%nat /\
  GameLoop.lastFrame final = hd 0 (GameLoop.rendered final) /\
  (1000 / GameLoop.FPS < now - GameLoop.lastFrame st ->
   GameLoop.gameLoop st now = GameLoop.mk now (now :: GameLoop.rendered st)) /\
  (now - GameLoop.lastFrame st <= 1000 / GameLoop.FPS ->
   GameLoop.gameLoop st now = st).
Proof.
  intros final.
  assert (Hinv : forall nows' st',
    (GameLoop.spaced (1000 / GameLoop.FPS) (GameLoop.rendered st') /\
     Forall (fun t => 1000 / GameLoop.FPS < t) (GameLoop.rendered st') /\
     GameLoop.lastFrame st' = hd 0 (GameLoop.rendered st')) ->
    (GameLoop.spaced (1000 / GameLoop.FPS)
       (GameLoop.rendered (GameLoop.run nows' st')) /\
     Forall (fun t => 1000 / GameLoop.FPS < t)
       (GameLoop.rendered (GameLoop.run nows' st')) /\
     GameLoop.lastFrame (GameLoop.run nows' st')
     = hd 0 (GameLoop.rendered (GameLoop.run nows' st')))).
  { unfold GameLoop.run. induction nows' as [| t nows' IH]; intros st' Hok;
      [exact Hok |].
    cbn [fold_left]. apply IH. now apply gameLoop_keeps. }
  destruct (Hinv nows GameLoop.init) as (Hspaced & Hlate & Hlast).
  { simpl. split; [exact I |]. split; [apply Forall_nil; exact I | reflexivity]. }
  destruct (run_rendered_from nows GameLoop.init) as [Hin Hlen].
  split; [exact Hspaced |]. split; [exact Hlate |]. split.
  { intros t Ht. destruct (Hin t Ht) as [H | []]. exact H. }
  split.
  { change (length (GameLoop.rendered GameLoop.init)) with 0%nat in Hlen.
    rewrite Nat.add_0_r in Hlen. exact Hlen. }
  split; [exact Hlast |].
  unfold GameLoop.gameLoop. split.
  - intros Hgo. apply gtb_true in Hgo. now rewrite Hgo.
  - intros Hwait. apply gtb_false in Hwait. now rewrite Hwait.
Qed.

End GameLoopFacts.

(** ** The further properties at concrete inputs *)

Lemma level1_rectangular tm : Map.rectangular (Level1.new tm) 16 18.
Proof. split; [reflexivity |]. repeat constructor. Qed.

(** A target whose four corners fall in the cell (1, 1). *)
Lemma canMoveTo_cell_1_1 (p : PlayerEntity.t) (m : Map.t) (newX newY : R) :
  PlayerEntity.map p = Some m -> Map.isSolid m 1 1 = false ->
  (67 <= newX < 125)%R -> (67 <= newY < 125)%R ->
  PlayerEntity.canMoveTo p newX newY = true.
Proof.
  intros Hmap Hopen Hx Hy. unfold PlayerEntity.canMoveTo. rewrite Hmap.
  unfold PlayerEntity.corners, PlayerEntity.COLLISION_MARGIN,
    PlayerEntity.TILE_SIZE. cbn [existsb fst snd].
  rewrite !(Zfloor_eq 1 ((newX - 3) / 64)), !(Zfloor_eq 1 ((newX + 3) / 64)),
    !(Zfloor_eq 1 ((newY - 3) / 64)), !(Zfloor_eq 1 ((newY + 3) / 64)) by lra.
  now rewrite Hopen.
Qed.

Lemma demo_player_clear : stands_clear demo_player.
Proof.
  unfold stands_clear.
  apply (canMoveTo_cell_1_1 _ (Level1.new no_textures));
    [reflexivity | reflexivity | cbn; lra | cbn; lra].
Qed.

Lemma new_map_solidity_witness :
  Map.isSolid (Map.new wall_defs no_textures [[1; 0]]%Z "grey" "darkgrey") 1 0
  = false.
Proof.
  apply (proj2 (proj2 (new_map_solidity wall_defs no_textures [[1; 0]]%Z
                         "grey" "darkgrey" 1 0))).
  exists [1; 0]%Z, 0%Z. split; [reflexivity |]. split; [reflexivity |].
  left. reflexivity.
Defined.

Lemma registration_composes_witness :
  (1 <> 2)%Z /\
  Map.registerTileDefinition 1 wall (Map.registerTileDefinition 2 wall ∅)
  = Map.registerTileDefinition 2 wall (Map.registerTileDefinition 1 wall ∅).
Proof.
  assert (Hne : (1 <> 2)%Z) by lia.
  split; [exact Hne |].
  exact (proj1 (proj2 (registration_composes ∅ 1 2 wall wall)) Hne).
Defined.

Lemma onload_then_lookup_witness :
  "grass" <> "wall" /\
  TextureCache.getTextureId (TextureCache.onload 1 "wall" tex2 true TextureCache.empty)
    "grass" = None.
Proof.
  assert (Hne : "grass" <> "wall") by discriminate.
  split; [exact Hne |].
  destruct (onload_then_lookup TextureCache.empty 1 "wall" tex2 true 0 0)
    as (_ & _ & _ & Hother & _).
  exact (proj1 (Hother "grass" Hne)).
Defined.

Lemma canMoveTo_needs_open_corners_witness :
  PlayerEntity.map demo_player = Some (Level1.new no_textures) /\
  open_at (Level1.new no_textures)
    (PlayerEntity.x demo_player - 3, PlayerEntity.y demo_player - 3)%R.
Proof.
  split; [reflexivity |].
  exact (proj1 (proj1 (proj2 (canMoveTo_needs_open_corners demo_player
                                (PlayerEntity.x demo_player)
                                (PlayerEntity.y demo_player))
                         (Level1.new no_textures) eq_refl)
                  demo_player_clear)).
Defined.

Lemma player_stays_clear_witness :
  stands_clear demo_player /\
  stands_clear
    (PlayerEntity.run
       [PlayerEntity.Keydown "KeyW"; PlayerEntity.Keydown "KeyD";
        PlayerEntity.Keydown "KeyW"; PlayerEntity.Keyup "ShiftLeft"]
       demo_player).
Proof.
  split; [exact demo_player_clear |].
  exact (proj1 (player_stays_clear _ demo_player demo_player_clear)).
Defined.

Lemma clear_player_inside_grid_witness :
  PlayerEntity.map demo_player = Some (Level1.new no_textures) /\
  Map.rectangular (Level1.new no_textures) 16 18 /\
  stands_clear demo_player /\
  (3 <= PlayerEntity.x demo_player < 64 * INR 16 - 3)%R.
Proof.
  split; [reflexivity |]. split; [exact (level1_rectangular no_textures) |].
  split; [exact demo_player_clear |].
  exact (proj1 (clear_player_inside_grid demo_player (Level1.new no_textures)
                  16 18 eq_refl (level1_rectangular no_textures)
                  demo_player_clear)).
Defined.

Lemma constructor_speed_witness :
  PlayerEntity.is_shift "ShiftLeft" = true /\
  PlayerEntity.speed
    (PlayerEntity.keyup "ShiftLeft"
       (PlayerEntity.keydown "ShiftLeft"
          (PlayerEntity.new 96 96
             (PlayerEntity.Options.mk None None (Some 10%R) None None))))
  = 10%R.
Proof.
  split; [reflexivity |].
  destruct (constructor_speed 96 96
              (PlayerEntity.Options.mk None None (Some 10%R) None None)
              "ShiftLeft") as (_ & _ & Hshift & _).
  exact (proj2 (Hshift eq_refl)).
Defined.

Lemma polled_canMoveTo_probes_witness :
  let p := PlayerPolled.new 96 96
             (PlayerPolled.Options.mk None None None None None None) in
  PlayerPolled.map p = None /\ PlayerPolled.canMoveTo p 100 100 = false.
Proof.
  intros p. split; [reflexivity |].
  exact (proj1 (polled_canMoveTo_probes p 100 100) eq_refl).
Defined.


Lemma polled_tick_witness :
  let p := PlayerPolled.new 96 96
             (PlayerPolled.Options.mk None None None None None None) in
  let q := PlayerPolled.keydown "KeyD" p in
  (PlayerPolled.pressedKeys p = ∅ /\ PlayerPolled.tick p = p) /\
  (PlayerPolled.pressed q "KeyA" "ArrowLeft" = false /\
   PlayerPolled.pressed q "KeyD" "ArrowRight" = true /\
   (PlayerPolled.angle q <= PlayerPolled.angle (PlayerPolled.ticks 3 q))%R).
Proof.
  intros p q.
  assert (Hleft : PlayerPolled.pressed q "KeyA" "ArrowLeft" = false)
    by reflexivity.
  assert (Hright : PlayerPolled.pressed q "KeyD" "ArrowRight" = true)
    by reflexivity.
  split.
  - split; [reflexivity |]. exact (proj1 (polled_tick p) eq_refl).
  - split; [exact Hleft |]. split; [exact Hright |].
    destruct (polled_tick q) as (_ & _ & _ & _ & _ & _ & _ & Hturn).
    exact (proj2 (Hturn Hleft Hright 3%nat)).
Defined.



Lemma farther_is_foggier_witness :
  (100 <= 500)%R /\
  (Renderer.fogFactor 100 <= Renderer.fogFactor 500)%R.
Proof.
  assert (Hd : (100 <= 500)%R) by lra.
  split; [exact Hd |].
  exact (proj2 (proj1 (farther_is_foggier 100 500 0 7 Hd))).
Defined.

Lemma wall_colour_fallbacks_witness :
  Js.truthy_string (Tile.texture Map.emptyTile) = true /\
  Renderer.getWallColor demo_renderer (Some Map.emptyTile) 0 0 enclosed4 100
  = Rgb (Some 255%Z) (Some 255%Z) (Some 255%Z).
Proof.
  assert (Hnear : (100 <= 300)%R) by lra.
  split; [reflexivity |].
  destruct (wall_colour_fallbacks demo_renderer Map.emptyTile 0 0 enclosed4 100)
    as (_ & _ & Hmissing & _).
  exact (proj2 (Hmissing eq_refl eq_refl) Hnear).
Defined.

Lemma no_march_without_range_witness :
  (Renderer.MAX_RAY_DISTANCE (with_max_distance demo_renderer 0) <= 0)%R /\
  Renderer.castRay (with_max_distance demo_renderer 0) 0 (Player.mk 96 96 0)
    enclosed4 = RayHit.mk 0 0 0 None.
Proof.
  assert (Hmax : (Renderer.MAX_RAY_DISTANCE (with_max_distance demo_renderer 0)
                  <= 0)%R) by (cbn; lra).
  split; [exact Hmax |].
  exact (no_march_without_range _ 0 (Player.mk 96 96 0) enclosed4 Hmax).
Defined.

Lemma raising_max_keeps_hits_witness :
  (Renderer.MAX_RAY_DISTANCE demo_renderer <= 2000)%R /\
  (RayHit.distance (Renderer.castRay demo_renderer 0 (Player.mk 96 96 0) enclosed4)
   <= RayHit.distance
        (Renderer.castRay (with_max_distance demo_renderer 2000) 0
           (Player.mk 96 96 0) enclosed4))%R.
Proof.
  assert (Hmax : (Renderer.MAX_RAY_DISTANCE demo_renderer <= 2000)%R)
    by (cbn; lra).
  split; [exact Hmax |].
  exact (proj2 (raising_max_keeps_hits demo_renderer 2000 0 (Player.mk 96 96 0)
                  enclosed4 Hmax)).
Defined.

Lemma frame_without_walls_witness :
  Map.tiles empty_map = [] /\
  length (Renderer.render demo_renderer (Player.mk 96 96 0) empty_map) = 2%nat.
Proof.
  split; [reflexivity |].
  rewrite (proj2 (frame_without_walls demo_renderer (Player.mk 96 96 0) empty_map)
             eq_refl).
  reflexivity.
Defined.

Lemma slab_is_centred_witness :
  (0 <= 10)%R /\
  (Renderer.drawStart demo_renderer 10 <= Renderer.drawEnd demo_renderer 10)%Z.
Proof.
  assert (Hpos : (0 <= 10)%R) by lra.
  split; [exact Hpos |].
  destruct (slab_is_centred demo_renderer (Player.mk 96 96 0) enclosed4 10 0)
    as (_ & _ & Horder & _).
  exact (Horder Hpos).
Defined.

Lemma nearer_walls_are_taller_witness :
  (0 < Renderer.TILE_SIZE demo_renderer
       * Renderer.PROJECTION_PLANE_DISTANCE demo_renderer)%R /\
  (0 <= 10 <= 20)%R /\
  (Renderer.wallHeight demo_renderer 20 <= Renderer.wallHeight demo_renderer 10)%R.
Proof.
  assert (Hscale : (0 < Renderer.TILE_SIZE demo_renderer
                        * Renderer.PROJECTION_PLANE_DISTANCE demo_renderer)%R)
    by (cbn; lra).
  assert (Hd : (0 <= 10 <= 20)%R) by lra.
  split; [exact Hscale |]. split; [exact Hd |].
  exact (proj2 (proj2 (nearer_walls_are_taller demo_renderer 0 (Player.mk 96 96 0)
                         enclosed4 Hscale) 10%R 20%R Hd)).
Defined.

Lemma ray_fan_extent_witness :
  (0 < Renderer.NUM_RAYS demo_renderer)%Z /\
  (0 < Renderer.FOV demo_renderer)%R /\
  (Renderer.rayAngle demo_renderer (Player.mk 96 96 0) 5
   < Renderer.rayAngle demo_renderer (Player.mk 96 96 0) 6
   < Player.angle (Player.mk 96 96 0) + Renderer.FOV demo_renderer / 2)%R.
Proof.
  assert (HN : (0 < Renderer.NUM_RAYS demo_renderer)%Z) by (cbn; lia).
  assert (Hfov : (0 < Renderer.FOV demo_renderer)%R).
  { cbn. pose proof PI_RGT_0. lra. }
  split; [exact HN |]. split; [exact Hfov |].
  destruct (ray_fan_extent demo_renderer (Player.mk 96 96 0) HN Hfov)
    as (_ & Hgrows & Hinside).
  split.
  - apply Hgrows; cbn; lia.
  - apply Hinside. cbn. lia.
Defined.

Lemma demo_slab_64 :
  Renderer.drawStart demo_renderer 64 = 22%Z /\
  Renderer.drawEnd demo_renderer 64 = 86%Z.
Proof.
  unfold Renderer.drawStart, Renderer.drawEnd. cbn.
  split; apply Zfloor_eq; lra.
Qed.

Lemma texture_row_range_witness :
  (0 < Renderer.TILE_SIZE demo_renderer)%R /\ (0 < 64)%R /\
  (Renderer.drawStart demo_renderer 64 <= 30 < Renderer.drawEnd demo_renderer 64)%Z /\
  (IZR (Renderer.textureY demo_renderer 64 30) < Renderer.TILE_SIZE demo_renderer)%R.
Proof.
  assert (Hts : (0 < Renderer.TILE_SIZE demo_renderer)%R) by (cbn; lra).
  assert (Hwh : (0 < 64)%R) by lra.
  assert (Hrow : (Renderer.drawStart demo_renderer 64 <= 30
                  < Renderer.drawEnd demo_renderer 64)%Z).
  { destruct demo_slab_64 as [-> ->]. lia. }
  split; [exact Hts |]. split; [exact Hwh |]. split; [exact Hrow |].
  exact (proj1 (texture_row_range demo_renderer 64 30 Hts Hwh Hrow)).
Defined.

Lemma minimap_marker_witness :
  exists cx : R,
    (MiniMap.margin (MiniMap.new MiniMap.Options.none) <= cx
     <= MiniMap.margin (MiniMap.new MiniMap.Options.none)
        + INR 16 * MiniMap.tileSize (MiniMap.new MiniMap.Options.none))%R.
Proof.
  destruct (minimap_marker (MiniMap.new MiniMap.Options.none) (Player.mk 96 96 0))
    as (cx & cy & x1 & y1 & _ & _ & _ & Hinside).
  exists cx. apply Hinside.
  - cbn. lra.
  - cbn [Player.x]. rewrite INR_IZR_INZ. change (Z.of_nat 16) with 16%Z. lra.
Defined.

Lemma frames_are_spaced_witness :
  (1000 / GameLoop.FPS < 50 - GameLoop.lastFrame GameLoop.init)%R /\
  GameLoop.gameLoop GameLoop.init 50 = GameLoop.mk 50 [50%R].
Proof.
  assert (Hgo : (1000 / GameLoop.FPS < 50 - GameLoop.lastFrame GameLoop.init)%R)
    by (cbn; unfold GameLoop.FPS; lra).
  split; [exact Hgo |].
  destruct (frames_are_spaced [] GameLoop.init 50) as (_ & _ & _ & _ & _ & Hrender & _).
  exact (Hrender Hgo).
Defined.
